(** * Derma-Assist-AI: the inference-orchestration pipeline

    A shallow embedding of the three variants of the analysis service
    ([src/geminiService.ts], [src/unnamed/part_000], [src/unnamed/part_001]):
    image preprocessing ([compressImage]), the model cascade
    ([tryGroqAnalysis]) and the entry point ([analyzeSkinImage]) with its
    normalisation of the model's reply.

    JavaScript objects are finite maps from property names to values,
    exceptions are an explicit completion type, and the observable effects
    (requests sent, alerts shown) are threaded as a chronological trace. *)

From Stdlib Require Import ZArith QArith.
From stdpp Require Import gmap strings list fin_maps pretty.

#[local] Set Warnings "-register-all".
#[local] Open Scope string_scope.
#[local] Open Scope list_scope.

(** ** JavaScript values *)

Module JS.

(** Values as the service sees them: what [JSON.parse] produces, plus
    [undefined].  Numbers are modelled by integers (no branch of the service
    looks at a fractional part: numbers are only tested for truthiness and
    compared with [0]).  An array carries its elements and, as every
    JavaScript object can, further named properties ([result.symptoms = ...]
    on an array stores one). *)
Inductive value :=
| VUndefined
| VNull
| VBool (b : bool)
| VNum (n : Z)
| VStr (s : string)
| VArr (elems : list value) (props : gmap string value)
| VObj (fields : gmap string value).

(** What a [throw] carries in this program: [null] (the initial value of
    [lastError]) or an error object ([Error], [TypeError], [SyntaxError],
    a rejected [fetch]) with its [message]. *)
Inductive thrown :=
| ThrownNull
| ThrownError (message : string).

(** A statement or an awaited promise completes normally or throws. *)
Inductive completion (A : Type) :=
| Normal (a : A)
| Throw (e : thrown).
Arguments Normal {A} a.
Arguments Throw {A} e.

(** [s.startsWith(p)] *)
Fixpoint startsWith (s p : string) : bool :=
  match p, s with
  | EmptyString, _ => true
  | String c p', String d s' => if Ascii.eqb c d then startsWith s' p' else false
  | String _ _, EmptyString => false
  end.

(** [s.includes(needle)] *)
Fixpoint includes (s needle : string) : bool :=
  startsWith s needle ||
  match s with
  | EmptyString => false
  | String _ s' => includes s' needle
  end.

(** [!!v] *)
Definition truthy (v : value) : bool :=
  match v with
  | VUndefined | VNull => false
  | VBool b => b
  | VNum n => negb (n =? 0)%Z
  | VStr s => negb (String.eqb s EmptyString)
  | VArr _ _ | VObj _ => true
  end.

Definition nullish (v : value) : bool :=
  match v with
  | VUndefined | VNull => true
  | _ => false
  end.

(** [v === false], [v === 0] *)
Definition is_false (v : value) : bool :=
  match v with
  | VBool false => true
  | _ => false
  end.

Definition is_zero (v : value) : bool :=
  match v with
  | VNum 0 => true
  | _ => false
  end.

(** [a || b] *)
Definition or_else (a b : value) : value := if truthy a then a else b.

(** The character of [s] at position [i], as a one-character string. *)
Fixpoint char_at (s : string) (i : nat) : option string :=
  match s, i with
  | EmptyString, _ => None
  | String c _, O => Some (String c EmptyString)
  | String _ s', S j => char_at s' j
  end.

(** [v.k] on a value that is neither [null] nor [undefined]: own properties
    of objects, [length] and named properties of arrays, [length] of
    strings; primitives have none of the names the service reads. *)
Definition prop (v : value) (k : string) : value :=
  match v with
  | VObj m => default VUndefined (m !! k)
  | VArr l p =>
      if String.eqb k "length" then VNum (Z.of_nat (length l))
      else default VUndefined (p !! k)
  | VStr s =>
      if String.eqb k "length" then VNum (Z.of_nat (String.length s))
      else VUndefined
  | _ => VUndefined
  end.

(** [v[i]] on a value that is neither [null] nor [undefined]. *)
Definition index (v : value) (i : nat) : value :=
  match v with
  | VObj m => default VUndefined (m !! pretty i)
  | VArr l _ => default VUndefined (l !! i)
  | VStr s => from_option VStr VUndefined (char_at s i)
  | _ => VUndefined
  end.

Definition type_name (v : value) : string :=
  match v with
  | VNull => "null"
  | _ => "undefined"
  end.

(** Reading a property of [null] or [undefined] throws a [TypeError]
    (the message text is the engine's; V8's is used, nothing depends on it). *)
Definition read_error (v : value) (k : string) : thrown :=
  ThrownError ("Cannot read properties of " +:+ type_name v +:+
               " (reading '" +:+ k +:+ "')").

Definition get (v : value) (k : string) : completion value :=
  if nullish v then Throw (read_error v k) else Normal (prop v k).

Definition get_index (v : value) (i : nat) : completion value :=
  if nullish v then Throw (read_error v (pretty i)) else Normal (index v i).

(** [v?.k] *)
Definition get_opt (v : value) (k : string) : value :=
  if nullish v then VUndefined else prop v k.

(** [v.k = x] in strict mode (module code): stores the property on an
    object or array and throws a [TypeError] on anything else.  The result
    is the updated object, which the embedding threads where the source
    mutates [result]. *)
Definition set (v : value) (k : string) (x : value) : completion value :=
  match v with
  | VObj m => Normal (VObj (<[k := x]> m))
  | VArr l p => Normal (VArr l (<[k := x]> p))
  | VUndefined | VNull =>
      Throw (ThrownError ("Cannot set properties of " +:+ type_name v +:+
                          " (setting '" +:+ k +:+ "')"))
  | _ => Throw (ThrownError ("Cannot create property '" +:+ k +:+
                             "' on a primitive value"))
  end.

(** The own enumerable properties copied by an object spread [{...v}]:
    the fields of an object, the indexed elements and named properties of
    an array, the indexed characters of a string, nothing for the rest. *)
Definition indexed {A} (l : list A) : gmap string A :=
  list_to_map (imap (λ i x, (pretty i, x)) l).

Fixpoint chars (s : string) : list value :=
  match s with
  | EmptyString => []
  | String c s' => VStr (String c EmptyString) :: chars s'
  end.

Definition spread (v : value) : gmap string value :=
  match v with
  | VObj m => m
  | VArr l p => p ∪ indexed l
  | VStr s => indexed (chars s)
  | _ => ∅
  end.

(** [e.message] for a caught value [e]. *)
Definition message (e : thrown) : completion string :=
  match e with
  | ThrownNull => Throw (read_error VNull "message")
  | ThrownError m => Normal m
  end.

(** Array and object literals. *)
Definition arr (l : list value) : value := VArr l ∅.
Definition strings (l : list string) : value := arr (VStr <$> l).
Definition obj (l : list (string * value)) : value := VObj (list_to_map l).

(** The outcome of [JSON.parse]: a value or a [SyntaxError]. *)
Inductive parsed :=
| Parsed (v : value)
| SyntaxError (message : string).

Definition of_parsed (p : parsed) : completion value :=
  match p with
  | Parsed v => Normal v
  | SyntaxError m => Throw (ThrownError m)
  end.

End JS.
Import JS.

(** ** The host: browser, network and configuration *)

(** What reading the body of a response gives: its text, or a rejection
    (the connection broke before the body was complete) with its message. *)
Inductive body_read :=
| BodyText (text : string)
| BodyFailed (message : string).

(** An HTTP response as the service reads it: [response.status] and the
    body, which [await response.text()] and [await response.json()] read;
    [response.ok] is derived from the status as the Fetch standard defines
    it and [response.json()] parses the text it read. *)
Record response := {
  status : Z;
  body : body_read;
}.

(** [await response.text()] *)
Definition read_body (r : response) : completion string :=
  match body r with
  | BodyText text => Normal text
  | BodyFailed message => Throw (ThrownError message)
  end.

Definition ok (r : response) : bool :=
  ((200 <=? status r) && (status r <=? 299))%Z.

(** [await fetch(...)]: a response of any status, or a rejection (network
    failure) with its message. *)
Inductive fetch_result :=
| Answered (r : response)
| Rejected (message : string).

(** The request body built by the service.  The instruction text, the
    temperature and the response format are constants of each variant and
    are left out; the image and the model are the parts that vary. *)
Record payload := {
  image_url : string;
}.

Record request := {
  rq_model : string;
  rq_payload : payload;
}.

(** The canvas [compressImage] draws the decoded image on. *)
Record canvas := {
  canvas_width : Z;
  canvas_height : Z;
  drawn : string;
}.

(** Everything the service takes from its environment. *)
Record Host := {
  (** [import.meta.env.VITE_GROQ_API_KEY] *)
  GROQ_API_KEY : value;
  (** setting [img.src]: [onload] with the natural width and height of the
      decoded image, or [onerror] ([None]) *)
  load_image : string → option (Z * Z);
  (** [canvas.toDataURL(type, quality)] *)
  toDataURL : canvas → string → Q → string;
  (** the answer to a request, given how many effects came before it *)
  fetch : nat → request → fetch_result;
  (** [JSON.parse(v)] (the argument is converted to a string first) *)
  JSON_parse : value → parsed;
}.

(** Observable effects, in the order they happen.  Console output is not
    recorded. *)
Inductive event :=
| EvFetch (rq : request) (answer : fetch_result)
| EvAlert (text : string).

(** ** Computations: a trace of effects and a completion *)

Definition M (A : Type) : Type := list event → completion A * list event.

#[global] Instance completion_ret : MRet completion := λ A a, Normal a.
#[global] Instance completion_bind : MBind completion := λ A B f c,
  match c with
  | Normal a => f a
  | Throw e => Throw e
  end.

#[global] Instance M_ret : MRet M := λ A a tr, (Normal a, tr).
#[global] Instance M_bind : MBind M := λ A B f m tr,
  match m tr with
  | (Normal a, tr') => f a tr'
  | (Throw e, tr') => (Throw e, tr')
  end.

Definition throw {A} (e : thrown) : M A := λ tr, (Throw e, tr).

Definition lift {A} (c : completion A) : M A := λ tr, (c, tr).

(** [try { body } catch (e) { handler e }] *)
Definition try_catch {A} (body : M A) (handler : thrown → M A) : M A := λ tr,
  match body tr with
  | (Normal a, tr') => (Normal a, tr')
  | (Throw e, tr') => handler e tr'
  end.

Definition alert (text : string) : M unit := λ tr, (Normal (), tr ++ [EvAlert text]).

(** The attempts of a trace: the models contacted, in order, with their
    answers. *)
Definition attempts (tr : list event) : list (string * fetch_result) :=
  omap (λ ev, match ev with
              | EvFetch rq ans => Some (rq_model rq, ans)
              | EvAlert _ => None
              end) tr.

Section Service.
Context (B : Host).

Definition await_fetch (rq : request) : M response := λ tr,
  let answer := fetch B (length tr) rq in
  (match answer with
   | Answered r => Normal r
   | Rejected m => Throw (ThrownError m)
   end, tr ++ [EvFetch rq answer]).

(** ** ImagePreprocessor: [compressImage] *)

(** [Math.round(a / b)] for integers [a] and [b > 0]: the floor of
    [a/b + 1/2].  Image dimensions are far below the range where the
    floating-point quotient could round onto or off a half. *)
Definition Math_round_div (a b : Z) : Z := ((2 * a + b) / (2 * b))%Z.

Definition image_source (base64Str : string) : string :=
  if startsWith base64Str "data:" then base64Str
  else "data:image/jpeg;base64," +:+ base64Str.

(** The promise settles once, from [onload] or from [onerror]; it never
    rejects. *)
Definition compressImage (base64Str : string) (maxWidth : Z) (quality : Q) : string :=
  let src := image_source base64Str in
  match load_image B src with
  | Some (img_width, img_height) =>
      let '(width, height) :=
        if (maxWidth <? img_width)%Z
        then (maxWidth, Math_round_div (img_height * maxWidth) img_width)
        else (img_width, img_height) in
      toDataURL B {| canvas_width := width; canvas_height := height; drawn := src |}
                "image/jpeg" quality
  | None => base64Str
  end.

(** ** ModelCascadeClient: [tryGroqAnalysis] *)

Section Cascade.
(** The variants differ in the model list and in the text of the credential
    error. *)
Variable VISION_MODELS : list string.
Variable credential_message : string.

(** How the [try] block of one iteration ends when it does not throw. *)
Inductive flow :=
| Return (data : value)
| Continue.

(** The message of [new Error(`Groq Error (${response.status}): ${errText}`)]. *)
Definition groq_message (r : response) (errText : string) : string :=
  "Groq Error (" +:+ pretty (status r) +:+ "): " +:+ errText.

Definition groq_error (r : response) (errText : string) : thrown :=
  ThrownError (groq_message r errText).

(** Lines 56-70: what the [try] block does with the response it awaited.
    The body of a failed response is read before its status is looked at;
    [response.json()] reads the body of a successful one and parses it. *)
Definition check_response (response : response) : completion flow :=
  if negb (ok response) then
    errText ← read_body response;
    if ((status response =? 401) || (status response =? 403))%Z
    then Throw (ThrownError credential_message)
    else if ((status response =? 400) || (status response =? 404))%Z
    then Normal Continue
    else Throw (groq_error response errText)
  else
    text ← read_body response;
    data ← of_parsed (JSON_parse B (VStr text));
    Normal (Return data).

(** The body of the [try] block. *)
Definition try_block (p : payload) (modelName : string) : M flow :=
  response ← await_fetch {| rq_model := modelName; rq_payload := p |};
  lift (check_response response).

(** [catch (e) { lastError = e; if (e.message.includes("API Key")) throw e; }]:
    the new [lastError] when the loop goes on. *)
Definition catch_block (e : thrown) : completion thrown :=
  msg ← message e;
  if includes msg "API Key" then Throw e else Normal e.

(** [for (const modelName of models) { try ... catch ... } throw lastError] *)
Fixpoint for_of (p : payload) (models : list string) (lastError : thrown) : M value :=
  match models with
  | [] => throw lastError
  | modelName :: rest => λ tr,
      match try_block p modelName tr with
      | (Normal (Return data), tr') => (Normal data, tr')
      | (Normal Continue, tr') => for_of p rest lastError tr'
      | (Throw e, tr') =>
          match catch_block e with
          | Normal lastError' => for_of p rest lastError' tr'
          | Throw e' => (Throw e', tr')
          end
      end
  end.

Definition cascade (p : payload) : M value := for_of p VISION_MODELS ThrownNull.

End Cascade.

(** [data.choices[0].message.content], then [JSON.parse(content)]. *)
Definition parse_reply (data : value) : completion value :=
  choices ← get data "choices";
  first ← get_index choices 0;
  msg ← get first "message";
  content ← get msg "content";
  of_parsed (JSON_parse B content).

End Service.

(** ** AnalysisService: the three variants of [analyzeSkinImage] *)

(** The record returned when no credential is configured (the same in the
    three variants). *)
Definition missing_key_record : value :=
  obj [("isSkin", VBool false); ("isHealthy", VBool false);
       ("diseaseName", VStr "Error"); ("description", VStr "Key Missing")].

(** The record built in the [catch] clause of [geminiService.ts] and
    [part_001]. *)
Definition analysis_error_record (msg : string) : value :=
  obj [("isSkin", VBool false); ("isHealthy", VBool false);
       ("diseaseName", VStr "Analysis Error"); ("description", VStr msg)].

(** [src/geminiService.ts] *)
Module Gemini.

Definition VISION_MODELS : list string :=
  ["llama-3.2-90b-vision-preview";
   "meta-llama/llama-4-scout-17b-16e-instruct";
   "llama-3.2-11b-vision-preview"].

Definition credential_message : string := "CRITICAL: API Key Restricted or Invalid.".

Section WithHost.
Context (B : Host).

Definition tryGroqAnalysis (p : payload) : M value :=
  cascade B VISION_MODELS credential_message p.

(** Lines 132-145: the non-skin branch overrides three fields of the
    reply, every other reply is returned as it is. *)
Definition normalize (result : value) : M value :=
  isSkin ← lift (get result "isSkin");
  if is_false isSkin then
    alert "Analysis Warning: No human skin detected in this image.";;
    mret (VObj (<["description" := VStr "The AI could not identify human skin texture in this image. Please upload a clear, close-up photo of the affected area."]>
               (<["diseaseName" := VStr "No Skin Detected"]>
               (<["isHealthy" := VBool false]> (spread result)))))
  else mret result.

(** The [try] block of [analyzeSkinImage]. *)
Definition analysis (compressedImage : string) : M value :=
  data ← tryGroqAnalysis {| image_url := compressedImage |};
  result ← lift (parse_reply B data);
  normalize result.

(** The [catch] clause of [analyzeSkinImage]. *)
Definition rescue (error : thrown) : M value :=
  msg ← lift (message error);
  alert ("Analysis Failed: " +:+ msg);;
  mret (analysis_error_record msg).

Definition analyzeSkinImage (base64Image : string) : M value :=
  if negb (truthy (GROQ_API_KEY B)) then
    alert "CRITICAL: Groq API Key is missing.";;
    mret missing_key_record
  else
    let compressedImage := compressImage B base64Image 1024 (7 # 10) in
    try_catch (analysis compressedImage) rescue.

End WithHost.
End Gemini.

(** [src/unnamed/part_000] *)
Module Part000.

Definition VISION_MODELS : list string :=
  ["meta-llama/llama-3.2-11b-vision-preview";
   "llama-3.2-90b-vision-preview";
   "llama-guard-3-8b"].

Definition credential_message : string := "CRITICAL: API Key Restricted.".

Definition scan_failed : value :=
  arr [obj [("title", VStr "Scan Failed");
            ("details", VStr "The image quality was too low to identify skin.")]].

(** The record built in the [catch] clause. *)
Definition analysis_failed_record (msg : string) : value :=
  obj [("isSkin", VBool false); ("isHealthy", VBool false);
       ("diseaseName", VStr "Analysis Failed");
       ("description",
        VStr ("The AI could not complete the scan. Reason: " +:+
              (if String.eqb msg EmptyString then "Network Error" else msg) +:+ "."));
       ("symptoms", arr []); ("reasons", arr []); ("treatments", arr []);
       ("medicines", arr []); ("precautions", arr []); ("prevention", arr []);
       ("healingPeriod", VStr "Unknown")].

(** Lines 162-182. *)
Definition normalize (result : value) : completion value :=
  isSkin ← get result "isSkin";
  if is_false isSkin then
    reasons ← get result "reasons";
    missing ← (if negb (truthy reasons) then Normal true
               else len ← get reasons "length"; Normal (is_zero len));
    result ← (if missing : bool then set result "reasons" scan_failed else Normal result);
    diseaseName ← get result "diseaseName";
    description ← get result "description";
    symptoms ← get result "symptoms";
    precautions ← get result "precautions";
    Normal (VObj (<["prevention" := arr []]>
                 (<["precautions" := or_else precautions (arr [])]>
                 (<["medicines" := arr []]>
                 (<["treatments" := arr []]>
                 (<["symptoms" := or_else symptoms (arr [])]>
                 (<["description" := or_else description (VStr "The analysis could not identify human skin.")]>
                 (<["diseaseName" := or_else diseaseName (VStr "No Skin Detected")]>
                 (<["isHealthy" := VBool false]> (spread result))))))))))
  else Normal result.

Section WithHost.
Context (B : Host).

Definition tryGroqAnalysis (p : payload) : M value :=
  cascade B VISION_MODELS credential_message p.

(** The [try] block of [analyzeSkinImage]. *)
Definition analysis (compressedImage : string) : M value :=
  data ← tryGroqAnalysis {| image_url := compressedImage |};
  result ← lift (parse_reply B data);
  lift (normalize result).

(** The [catch] clause of [analyzeSkinImage]. *)
Definition rescue (error : thrown) : M value :=
  msg ← lift (message error);
  mret (analysis_failed_record msg).

Definition analyzeSkinImage (base64Image : string) : M value :=
  if negb (truthy (GROQ_API_KEY B)) then
    alert "CRITICAL: Groq API Key is missing.";;
    mret missing_key_record
  else
    let compressedImage := compressImage B base64Image 1024 (7 # 10) in
    try_catch (analysis compressedImage) rescue.

End WithHost.
End Part000.

(** [src/unnamed/part_001] *)
Module Part001.

Definition VISION_MODELS : list string :=
  ["meta-llama/llama-4-scout-17b-16e-instruct";
   "llama-3.2-90b-vision-preview";
   "llama-3.2-11b-vision-preview"].

Definition credential_message : string := "CRITICAL: API Key Restricted.".

Definition defaultAdvice : value :=
  strings ["Maintain daily hygiene"; "Use sunscreen (SPF 50)"; "Drink 3L water daily"].

Definition default_symptoms : value :=
  strings ["No critical symptoms detected."; "Standard skin texture observed."].

Definition default_reasons : value :=
  strings ["Genetics"; "Environmental factors"; "Lifestyle choices"].

Definition no_skin_symptoms : value :=
  strings ["Image blur"; "Poor lighting"; "Non-skin object"].

Definition no_skin_reasons : value :=
  strings ["Camera not focused"; "Object is too far"; "Shadows obscuring details"].

Definition no_skin_precautions : value :=
  strings ["Use natural lighting"; "Hold camera steady"; "Focus on the skin area"].

(** [if (!result.k?.length) result.k = filler;] *)
Definition backfill (k : string) (filler : value) (result : value) : completion value :=
  current ← get result k;
  if negb (truthy (get_opt current "length")) then set result k filler
  else Normal result.

(** Lines 118-138. *)
Definition normalize (result : value) : completion value :=
  result ← backfill "symptoms" default_symptoms result;
  result ← backfill "reasons" default_reasons result;
  result ← backfill "precautions" defaultAdvice result;
  result ← backfill "prevention" defaultAdvice result;
  isSkin ← get result "isSkin";
  if is_false isSkin then
    Normal (VObj (<["precautions" := no_skin_precautions]>
                 (<["reasons" := no_skin_reasons]>
                 (<["symptoms" := no_skin_symptoms]>
                 (<["description" := VStr "The AI could not clearly identify human skin. This may be due to lighting, blur, or the object not being skin."]>
                 (<["diseaseName" := VStr "No Skin Detected"]>
                 (<["isHealthy" := VBool false]> (spread result))))))))
  else Normal result.

Section WithHost.
Context (B : Host).

Definition tryGroqAnalysis (p : payload) : M value :=
  cascade B VISION_MODELS credential_message p.

(** The [try] block of [analyzeSkinImage]. *)
Definition analysis (compressedImage : string) : M value :=
  data ← tryGroqAnalysis {| image_url := compressedImage |};
  result ← lift (parse_reply B data);
  lift (normalize result).

(** The [catch] clause of [analyzeSkinImage]. *)
Definition rescue (error : thrown) : M value :=
  msg ← lift (message error);
  alert ("Analysis Failed: " +:+ msg);;
  mret (analysis_error_record msg).

Definition analyzeSkinImage (base64Image : string) : M value :=
  if negb (truthy (GROQ_API_KEY B)) then
    alert "CRITICAL: Groq API Key is missing.";;
    mret missing_key_record
  else
    let compressedImage := compressImage B base64Image 1024 (7 # 10) in
    try_catch (analysis compressedImage) rescue.

End WithHost.
End Part001.

(** ** The three variants side by side *)

Inductive variant := GeminiService | Part000Service | Part001Service.

Definition VISION_MODELS (v : variant) : list string :=
  match v with
  | GeminiService => Gemini.VISION_MODELS
  | Part000Service => Part000.VISION_MODELS
  | Part001Service => Part001.VISION_MODELS
  end.

Definition credential_message (v : variant) : string :=
  match v with
  | GeminiService => Gemini.credential_message
  | Part000Service => Part000.credential_message
  | Part001Service => Part001.credential_message
  end.

Definition tryGroqAnalysis (v : variant) (B : Host) : payload → M value :=
  match v with
  | GeminiService => Gemini.tryGroqAnalysis B
  | Part000Service => Part000.tryGroqAnalysis B
  | Part001Service => Part001.tryGroqAnalysis B
  end.

Definition normalize (v : variant) (result : value) : M value :=
  match v with
  | GeminiService => Gemini.normalize result
  | Part000Service => lift (Part000.normalize result)
  | Part001Service => lift (Part001.normalize result)
  end.

Definition analysis (v : variant) (B : Host) : string → M value :=
  match v with
  | GeminiService => Gemini.analysis B
  | Part000Service => Part000.analysis B
  | Part001Service => Part001.analysis B
  end.

Definition rescue (v : variant) : thrown → M value :=
  match v with
  | GeminiService => Gemini.rescue
  | Part000Service => Part000.rescue
  | Part001Service => Part001.rescue
  end.

(** The record the [catch] clause builds from the message of the error. *)
Definition catch_record (v : variant) (msg : string) : value :=
  match v with
  | Part000Service => Part000.analysis_failed_record msg
  | _ => analysis_error_record msg
  end.

Definition analyzeSkinImage (v : variant) (B : Host) : string → M value :=
  match v with
  | GeminiService => Gemini.analyzeSkinImage B
  | Part000Service => Part000.analyzeSkinImage B
  | Part001Service => Part001.analyzeSkinImage B
  end.

(** ** The declared result shape ([src/types.ts]) *)

Module Types.

Definition is_boolean (v : value) : bool :=
  match v with VBool _ => true | _ => false end.

Definition is_string (v : value) : bool :=
  match v with VStr _ => true | _ => false end.

Definition is_string_or_null (v : value) : bool :=
  match v with VStr _ | VNull => true | _ => false end.

Definition is_array_of (elem : value → bool) (v : value) : bool :=
  match v with VArr l _ => forallb elem l | _ => false end.

(** [interface AnalysisPoint { title: string; details: string }] *)
Definition is_AnalysisPoint (v : value) : bool :=
  match v with
  | VObj _ => is_string (prop v "title") && is_string (prop v "details")
  | _ => false
  end.

(** [AnalysisPoint[] | string[]] *)
Definition is_points_or_strings (v : value) : bool :=
  is_array_of is_AnalysisPoint v || is_array_of is_string v.

(** [interface SkinAnalysis] *)
Definition is_SkinAnalysis (v : value) : bool :=
  is_boolean (prop v "isSkin") && is_boolean (prop v "isHealthy") &&
  is_string_or_null (prop v "diseaseName") &&
  is_string_or_null (prop v "description") &&
  is_points_or_strings (prop v "symptoms") &&
  is_points_or_strings (prop v "reasons") &&
  is_points_or_strings (prop v "precautions") &&
  is_points_or_strings (prop v "prevention") &&
  is_points_or_strings (prop v "treatments") &&
  is_array_of is_string (prop v "medicines") &&
  is_string_or_null (prop v "healingPeriod").

End Types.

(** ** Vocabulary of the properties *)

(** A non-empty sequence: an array with at least one element. *)
Definition nonempty_seq (v : value) : bool :=
  match v with VArr (_ :: _) _ => true | _ => false end.

(** [v?.length] is truthy: the test the backfill of [part_001] applies. *)
Definition has_length (v : value) : bool := truthy (get_opt v "length").

(** A value that, if it is an array, is not the empty one. *)
Definition nonempty_if_seq (v : value) : Prop :=
  ∀ l ps, v = VArr l ps → l ≠ [].

(** The records [analyzeSkinImage] returns without a reply of a model. *)
Definition fallback (v : variant) (r : value) : Prop :=
  r = missing_key_record ∨ ∃ msg, r = catch_record v msg.

(** The fields the backfill of [part_001] covers. *)
Definition backfilled_fields : list string :=
  ["symptoms"; "reasons"; "precautions"; "prevention"].

(** The guidance fields of a result. *)
Definition guidance_fields : list string :=
  ["symptoms"; "reasons"; "precautions"; "prevention"; "treatments"].

(** The fields a fallback record leaves out. *)
Definition omitted_fields : list string :=
  ["symptoms"; "reasons"; "precautions"; "prevention"; "treatments";
   "medicines"; "healingPeriod"].

(** The invariant of the data model for a rejected image. *)
Definition rejection_explained (r : value) : Prop :=
  prop r "isSkin" = VBool false →
  prop r "isHealthy" = VBool false ∧
  nonempty_seq (prop r "reasons") = true ∧
  nonempty_seq (prop r "precautions") = true.

(** The invariant of the data model for an accepted image. *)
Definition guidance_present (r : value) : Prop :=
  prop r "isSkin" = VBool true →
  nonempty_seq (prop r "treatments") = true ∧
  nonempty_seq (prop r "precautions") = true.

(** A reply whose guidance fields are all non-empty arrays. *)
Definition complete_reply (result : value) : Prop :=
  ∀ k, k ∈ guidance_fields → nonempty_seq (prop result k) = true.

(** The guidance fields of [r] are those of the reply [result]. *)
Definition guidance_unmodified (result r : value) : Prop :=
  ∀ k, k ∈ guidance_fields → prop r k = prop result k.

(** A record with exactly the four fields of the short fallback. *)
Definition short_fallback (r : value) : Prop :=
  (∃ m, r = VObj m ∧
        dom m = ({["isSkin"; "isHealthy"; "diseaseName"; "description"]} : gset string)) ∧
  (∀ k, k ∈ omitted_fields → prop r k = VUndefined) ∧
  Types.is_SkinAnalysis r = false.

(** The attempts a computation added to the trace it started from. *)
Definition new_attempts (tr0 tr : list event) : list (string * fetch_result) :=
  attempts (drop (length tr0) tr).

(** The cascade stops at its [i]-th attempt by throwing [e]. *)
Definition aborts_at (log : list (string * fetch_result)) (res : completion value)
    (i : nat) (e : thrown) : Prop :=
  res = Throw e ∧ length log = S i.

(** A failure status that is neither a credential nor an availability
    status. *)
Definition unclassified (r : response) : Prop :=
  ok r = false ∧
  (status r ≠ 400 ∧ status r ≠ 401 ∧ status r ≠ 403 ∧ status r ≠ 404)%Z.

(** The reading under which every unclassified failure aborts the cascade. *)
Definition aborts_on_unclassified (v : variant) (B : Host) (p : payload) : Prop :=
  ∀ tr0 res tr i m r errText,
    tryGroqAnalysis v B p tr0 = (res, tr) →
    new_attempts tr0 tr !! i = Some (m, Answered r) →
    unclassified r →
    body r = BodyText errText →
    aborts_at (new_attempts tr0 tr) res i (groq_error r errText).

(** The reading under which every answer with status 401 or 403 aborts the
    cascade with the credential error. *)
Definition aborts_on_credential (v : variant) (B : Host) (p : payload) : Prop :=
  ∀ tr0 res tr i m r,
    tryGroqAnalysis v B p tr0 = (res, tr) →
    new_attempts tr0 tr !! i = Some (m, Answered r) →
    (status r = 401 ∨ status r = 403)%Z →
    aborts_at (new_attempts tr0 tr) res i (ThrownError (credential_message v)).

(** The reading under which the first answer with a success status gives
    the result of the cascade and no later candidate is contacted. *)
Definition first_success_wins (v : variant) (B : Host) (p : payload) : Prop :=
  ∀ tr0 res tr i m r,
    tryGroqAnalysis v B p tr0 = (res, tr) →
    new_attempts tr0 tr !! i = Some (m, Answered r) →
    ok r = true →
    (∃ data, res = Normal data) ∧ length (new_attempts tr0 tr) = S i.

(** [h] is the integer nearest to [a / b] (halves go up), for [b > 0]. *)
Definition nearest (h a b : Z) : Prop :=
  (2 * b * h - b <= 2 * a < 2 * b * h + b)%Z.

(** The events of a cascade that made the attempts [log] with payload [p]. *)
Definition sent (p : payload) (log : list (string * fetch_result)) : list event :=
  (λ a, EvFetch {| rq_model := a.1; rq_payload := p |} a.2) <$> log.

Section Runs.
Context (B : Host) (cm : string).

(** How one iteration of the cascade completes, from the answer it got. *)
Definition attempt_completion (answer : fetch_result) : completion flow :=
  match answer with
  | Answered r => check_response B cm r
  | Rejected m => Throw (ThrownError m)
  end.

(** The runs of the loop: the candidates left, the last error on entry,
    the attempts made and the completion. *)
Inductive run : list string → thrown → list (string * fetch_result) → completion value → Prop :=
| run_exhausted lastError :
    run [] lastError [] (Throw lastError)
| run_return m rest lastError answer data :
    attempt_completion answer = Normal (Return data) →
    run (m :: rest) lastError [(m, answer)] (Normal data)
| run_continue m rest lastError answer log res :
    attempt_completion answer = Normal Continue →
    run rest lastError log res →
    run (m :: rest) lastError ((m, answer) :: log) res
| run_caught m rest lastError answer e lastError' log res :
    attempt_completion answer = Throw e →
    catch_block e = Normal lastError' →
    run rest lastError' log res →
    run (m :: rest) lastError ((m, answer) :: log) res
| run_rethrown m rest lastError answer e e' :
    attempt_completion answer = Throw e →
    catch_block e = Throw e' →
    run (m :: rest) lastError [(m, answer)] (Throw e').

End Runs.

(** ** Scripted hosts for the worked examples *)

Module Script.

(** JSON documents, with the text [JSON.stringify] gives them and the value
    [JSON.parse] gives back for that text. *)
Inductive json :=
| JNull
| JBool (b : bool)
| JNum (n : Z)
| JStr (s : string)
| JArr (l : list json)
| JObj (l : list (string * json)).

Fixpoint to_value (j : json) : value :=
  match j with
  | JNull => VNull
  | JBool b => VBool b
  | JNum n => VNum n
  | JStr s => VStr s
  | JArr l => arr (map to_value l)
  | JObj l => obj (map (λ kv, (kv.1, to_value kv.2)) l)
  end.

Definition quote : Ascii.ascii := Ascii.ascii_of_nat 34.
Definition backslash : Ascii.ascii := Ascii.ascii_of_nat 92.

Fixpoint escape (s : string) : string :=
  match s with
  | EmptyString => EmptyString
  | String c s' =>
      if Ascii.eqb c quote || Ascii.eqb c backslash
      then String backslash (String c (escape s'))
      else String c (escape s')
  end.

Definition quoted (s : string) : string :=
  String quote (escape s +:+ String quote EmptyString).

Definition commas (l : list string) : string :=
  match l with
  | [] => EmptyString
  | x :: l' => fold_left (λ acc y, acc +:+ "," +:+ y) l' x
  end.

Fixpoint to_text (j : json) : string :=
  match j with
  | JNull => "null"
  | JBool true => "true"
  | JBool false => "false"
  | JNum n => pretty n
  | JStr s => quoted s
  | JArr l => "[" +:+ commas (map to_text l) +:+ "]"
  | JObj l => "{" +:+ commas (map (λ kv, quoted kv.1 +:+ ":" +:+ to_text kv.2) l) +:+ "}"
  end.

(** The chat-completion envelope carrying [content] as its message text. *)
Definition envelope (content : json) : json :=
  JObj [("choices", JArr [JObj [("message", JObj [("content", JStr (to_text content))])]])].

(** [JSON.parse] restricted to the documents of a script. *)
Definition parse_among (docs : list json) (v : value) : parsed :=
  match v with
  | VStr s =>
      match find (λ j, String.eqb (to_text j) s) docs with
      | Some j => Parsed (to_value j)
      | None => SyntaxError "Unexpected token"
      end
  | _ => SyntaxError "Unexpected token"
  end.

(** A host with a credential, an image of the given size and the given
    answers to the successive requests (a network failure once they run
    out). *)
Definition host (key : value) (image : option (Z * Z))
    (answers : list fetch_result) (docs : list json) : Host :=
  {| GROQ_API_KEY := key;
     load_image := λ _, image;
     toDataURL := λ c type _,
       "data:" +:+ type +:+ ";size=" +:+ pretty (canvas_width c) +:+ "x" +:+
       pretty (canvas_height c);
     fetch := λ n _, default (Rejected "Failed to fetch") (answers !! n);
     JSON_parse := parse_among docs |}.

Definition http (code : Z) (text : string) : fetch_result :=
  Answered {| status := code; body := BodyText text |}.

Definition replied (content : json) : fetch_result :=
  http 200 (to_text (envelope content)).

Definition key : value := VStr "gsk_example".
Definition photo : string := "iVBORw0KGgo".

(** Every model answers 404. *)
Definition all_unavailable : Host :=
  host key (Some (640, 480)%Z)
       [http 404 "model not found"; http 404 "model not found"; http 404 "model not found"] [].

(** The first model answers 401. *)
Definition unauthorized : Host :=
  host key (Some (640, 480)%Z) [http 401 "invalid key"] [].

(** No credential is configured. *)
Definition unconfigured : Host :=
  host VUndefined (Some (640, 480)%Z) [] [].

(** A healthy-skin reply with nothing to recommend. *)
Definition bare_reply : json :=
  JObj [("isSkin", JBool true); ("isHealthy", JBool true);
        ("diseaseName", JStr "Healthy Skin"); ("description", JStr "Normal skin.");
        ("symptoms", JArr []); ("reasons", JArr []); ("treatments", JArr []);
        ("medicines", JArr []); ("healingPeriod", JStr "None");
        ("precautions", JArr []); ("prevention", JArr [])].

(** A reply with every guidance field filled in. *)
Definition full_reply (isSkin : bool) : json :=
  JObj [("isSkin", JBool isSkin); ("isHealthy", JBool false);
        ("diseaseName", JStr "Eczema"); ("description", JStr "Dry, inflamed patches.");
        ("symptoms", JArr [JStr "Redness"]); ("reasons", JArr [JStr "Dry air"]);
        ("treatments", JArr [JStr "Emollient"]); ("medicines", JArr [JStr "Hydrocortisone"]);
        ("healingPeriod", JStr "2 weeks");
        ("precautions", JArr [JStr "Avoid scratching"]);
        ("prevention", JArr [JStr "Moisturise daily"])].

(** The first model answers with [content]. *)
Definition answering (content : json) : Host :=
  host key (Some (640, 480)%Z) [replied content] [envelope content; content].

(** The first model answers 404, the second answers with [content]. *)
Definition second_answers (content : json) : Host :=
  host key (Some (640, 480)%Z)
       [http 404 "model not found"; replied content] [envelope content; content].

(** The first model answers 500, the second answers with [content]. *)
Definition first_overloaded (content : json) : Host :=
  host key (Some (640, 480)%Z)
       [http 500 "internal error"; replied content] [envelope content; content].

(** The value a computation resolved to ([undefined] if it threw). *)
Definition returned (out : completion value * list event) : value :=
  match out.1 with
  | Normal r => r
  | Throw _ => VUndefined
  end.

(** A photo 2048 pixels wide and 1001 pixels high. *)
Definition wide_photo : Host :=
  host key (Some (2048, 1001)%Z) [] [].

End Script.

(** ** The progression view ([src/ProgressionCompare.tsx]) *)

Module ProgressionCompare.

(** [interface TimelineEntry]; the optional [analysis] is never read by the
    view. *)
Record TimelineEntry := {
  id : string;
  timestamp : Z;
  imageData : string;
  label : string;
}.

(** The state of the component: the two selected indices (the selects hand
    over any number, whole numbers are modelled), the report and the
    loading flag. *)
Record state := {
  idx1 : Z;
  idx2 : Z;
  report : value;
  loading : bool;
}.

(** What the handler does to the outside: a call of [compareProgression]
    and an alert. *)
Inductive effect :=
| Compared (image1 image2 : string)
| Alerted (text : string).

(** [entries[i].imageData]: a [TypeError] when there is no such entry. *)
Definition image_at (entries : list TimelineEntry) (i : Z) : completion string :=
  if (i <? 0)%Z then Throw (read_error VUndefined "imageData")
  else match entries !! Z.to_nat i with
       | Some e => Normal (imageData e)
       | None => Throw (read_error VUndefined "imageData")
       end.

Section View.
(** The imported [compareProgression]: it resolves to a report or rejects. *)
Variable compareProgression : string → string → completion value.

(** [handleCompare]: the state and the effects once the handler has run
    ([setLoading(true); setReport(null)], the [try], its [catch] and its
    [finally]). *)
Definition handleCompare (entries : list TimelineEntry) (s : state) : state * list effect :=
  if (idx1 s =? idx2 s)%Z then (s, [])
  else
    let started := {| idx1 := idx1 s; idx2 := idx2 s; report := VNull; loading := true |} in
    let finished (r : value) :=
      {| idx1 := idx1 started; idx2 := idx2 started; report := r; loading := false |} in
    match image_at entries (idx1 s) with
    | Throw _ => (finished (report started), [Alerted "Comparison failed"])
    | Normal image1 =>
        match image_at entries (idx2 s) with
        | Throw _ => (finished (report started), [Alerted "Comparison failed"])
        | Normal image2 =>
            match compareProgression image1 image2 with
            | Normal result => (finished result, [Compared image1 image2])
            | Throw _ =>
                (finished (report started),
                 [Compared image1 image2; Alerted "Comparison failed"])
            end
        end
    end.

End View.

(** The three class names [getVerdictStyles] returns. *)
Record styles := {
  container : string;
  text : string;
  icon : string;
}.

Definition is_verdict (v : value) (name : string) : bool :=
  match v with
  | VStr s => String.eqb s name
  | _ => false
  end.

Definition getVerdictStyles (v : value) : styles :=
  if is_verdict v "IMPROVED" then
    {| container := "border-green-200 bg-green-50/50";
       text := "text-green-600"; icon := "text-green-500" |}
  else if is_verdict v "WORSENED" then
    {| container := "border-red-200 bg-red-50/50";
       text := "text-red-500"; icon := "text-red-500" |}
  else
    {| container := "border-slate-200 bg-slate-50/50";
       text := "text-slate-500"; icon := "text-slate-400" |}.

(** [getIcon]: the path drawn inside the icon (the rest of the markup is the
    same for the three). *)
Definition getIcon (v : value) : string :=
  if is_verdict v "IMPROVED" then "M13 7h8m0 0v8m0-8l-8 8-4-4-6 6"
  else if is_verdict v "WORSENED" then "M13 17h8m0 0V9m0 8l-8-8-4 4-6-6"
  else "M20 12H4".

(** [report ? getVerdictStyles(report.verdict) : { container: '', ... }] *)
Definition current_styles (s : state) : styles :=
  if truthy (report s) then getVerdictStyles (prop (report s) "verdict")
  else {| container := EmptyString; text := EmptyString; icon := EmptyString |}.

(** The verdicts of [ComparisonResult] in the two versions of the types. *)
Definition verdicts : list string :=
  ["IMPROVED"; "WORSENED"; "STABLE"; "UNCLEAR"; "MISMATCH"].

End ProgressionCompare.

(** ** Further vocabulary *)

(** The alerts of a trace, and those a computation added. *)
Definition alerts (tr : list event) : list string :=
  omap (λ ev, match ev with
              | EvAlert text => Some text
              | EvFetch _ _ => None
              end) tr.

Definition new_alerts (tr0 tr : list event) : list string :=
  alerts (drop (length tr0) tr).

(** An answer with status 400 or 404 whose body was read: the answers that
    leave the iteration through [continue], recording nothing. *)
Definition unavailable (answer : fetch_result) : Prop :=
  ∃ r text, answer = Answered r ∧ (status r = 400 ∨ status r = 404)%Z ∧
            body r = BodyText text.

(** What happens after the [i]-th attempt when its [try] block threw an
    error with the message [text].  When the message names the key the
    cascade stops there with that error.  Otherwise the error is recorded
    and the next candidate, if there is one, is contacted; and if every
    later attempt is answered 400 or 404 with a body that is read (none
    when the attempt was on the last candidate), the cascade goes through the whole list and ends by
    throwing the recorded error. *)
Definition recorded_or_fatal (v : variant) (log : list (string * fetch_result))
    (res : completion value) (i : nat) (text : string) : Prop :=
  (includes text "API Key" = true → aborts_at log res i (ThrownError text)) ∧
  (includes text "API Key" = false →
     (∀ next, VISION_MODELS v !! S i = Some next →
              ∃ answer, log !! S i = Some (next, answer)) ∧
     ((∀ j m answer, i < j → log !! j = Some (m, answer) → unavailable answer) →
      res = Throw (ThrownError text) ∧ length log = length (VISION_MODELS v))).

(** The size of the canvas for an image of the given natural size (lines
    19-26 of [compressImage]). *)
Definition resize (maxWidth img_width img_height : Z) : Z * Z :=
  if (maxWidth <? img_width)%Z
  then (maxWidth, Math_round_div (img_height * maxWidth) img_width)
  else (img_width, img_height).

(** The payload [analyzeSkinImage] builds for an image. *)
Definition payload_for (B : Host) (base64Image : string) : payload :=
  {| image_url := compressImage B base64Image 1024 (7 # 10) |}.

(** The alert of the [catch] clause for an error with the message [text]
    ([part_000] has none). *)
Definition failure_alerts (v : variant) (text : string) : list string :=
  match v with
  | Part000Service => []
  | _ => ["Analysis Failed: " +:+ text]
  end.

(** The alert of the normalisation ([geminiService.ts] warns about a reply
    that says [isSkin: false]). *)
Definition warning_alerts (v : variant) (result : value) : list string :=
  match v with
  | GeminiService =>
      if is_false (prop result "isSkin")
      then ["Analysis Warning: No human skin detected in this image."] else []
  | _ => []
  end.

(** What the [catch] clause of [analyzeSkinImage] makes of the error [e]:
    the result and the alerts shown. *)
Definition rescued (v : variant) (e : thrown) (res : completion value)
    (texts : list string) : Prop :=
  match e with
  | ThrownNull => res = Throw (read_error VNull "message") ∧ texts = []
  | ThrownError text => res = Normal (catch_record v text) ∧ texts = failure_alerts v text
  end.

(** The ways through [analyzeSkinImage] once the cascade, started on the
    trace [tr0], has completed with [cres] on the trace [trc]: the result
    and the alerts shown after the requests. *)
Inductive path (v : variant) (B : Host) (trc : list event) (cres : completion value)
    (res : completion value) (texts : list string) : Prop :=
| path_cascade_failed e :
    cres = Throw e → rescued v e res texts → path v B trc cres res texts
| path_unreadable data text :
    cres = Normal data → parse_reply B data = Throw (ThrownError text) →
    rescued v (ThrownError text) res texts → path v B trc cres res texts
| path_unusable data result text :
    cres = Normal data → parse_reply B data = Normal result →
    normalize v result trc = (Throw (ThrownError text), trc) →
    rescued v (ThrownError text) res texts → path v B trc cres res texts
| path_normalized data result r :
    cres = Normal data → parse_reply B data = Normal result →
    normalize v result trc = (Normal r, trc ++ (EvAlert <$> texts)) →
    res = Normal r → texts = warning_alerts v result →
    path v B trc cres res texts.

(** More scripted hosts. *)
Module Cases.

(** The first model answers 200 with an envelope that has no choices. *)
Definition no_choices : Host :=
  Script.host Script.key (Some (640, 480)%Z)
    [Script.http 200 (Script.to_text (Script.JObj []))] [Script.JObj []].

(** The network is down: every request fails. *)
Definition offline : Host :=
  Script.host Script.key (Some (640, 480)%Z) [] [].

(** The first model answers 200 with a page that is not JSON, the second
    answers with [content]. *)
Definition first_garbled (content : Script.json) : Host :=
  Script.host Script.key (Some (640, 480)%Z)
    [Script.http 200 "<html>Bad gateway</html>"; Script.replied content]
    [Script.envelope content; content].

(** The first request fails on the network, the second model answers with
    [content]. *)
Definition first_dropped (content : Script.json) : Host :=
  Script.host Script.key (Some (640, 480)%Z)
    [Rejected "Failed to fetch"; Script.replied content]
    [Script.envelope content; content].

(** An answer of the given status whose body cannot be read. *)
Definition cut_off (code : Z) : fetch_result :=
  Answered {| status := code; body := BodyFailed "network error" |}.

(** The first model answers 401 but the connection breaks while the body
    is read; the second answers with [content]. *)
Definition unauthorized_cut_off (content : Script.json) : Host :=
  Script.host Script.key (Some (640, 480)%Z)
    [cut_off 401; Script.replied content] [Script.envelope content; content].

(** The first request fails on the network, the two others are answered
    404. *)
Definition dropped_rest_unavailable : Host :=
  Script.host Script.key (Some (640, 480)%Z)
    [Rejected "Failed to fetch"; Script.http 404 "model not found";
     Script.http 404 "model not found"] [].

(** The first model answers 200 with a page that is not JSON, the two
    others answer 404. *)
Definition garbled_rest_unavailable : Host :=
  Script.host Script.key (Some (640, 480)%Z)
    [Script.http 200 "<html>Bad gateway</html>"; Script.http 404 "model not found";
     Script.http 404 "model not found"] [].

(** The first model answers 500, the two others answer 404. *)
Definition overloaded_rest_unavailable : Host :=
  Script.host Script.key (Some (640, 480)%Z)
    [Script.http 500 "internal error"; Script.http 404 "model not found";
     Script.http 404 "model not found"] [].

(** A photo 4096 pixels wide and one pixel high. *)
Definition sliver : Host :=
  Script.host Script.key (Some (4096, 1)%Z) [] [].

(** A timeline of three entries. *)
Definition timeline : list ProgressionCompare.TimelineEntry :=
  [{| ProgressionCompare.id := "a"; ProgressionCompare.timestamp := 1;
      ProgressionCompare.imageData := "image-a"; ProgressionCompare.label := "first" |};
   {| ProgressionCompare.id := "b"; ProgressionCompare.timestamp := 2;
      ProgressionCompare.imageData := "image-b"; ProgressionCompare.label := "second" |};
   {| ProgressionCompare.id := "c"; ProgressionCompare.timestamp := 3;
      ProgressionCompare.imageData := "image-c"; ProgressionCompare.label := "third" |}].

(** A comparison service that always reports an improvement. *)
Definition improved_report : value :=
  obj [("verdict", VStr "IMPROVED"); ("changes", strings ["Less redness"]);
       ("recommendation", VStr "Keep going")].

End Cases.

(** * Properties *)

(** ** The cascade *)

Section CascadeFacts.
Context (B : Host) (cm : string) (p : payload).

Lemma attempts_sent (log : list (string * fetch_result)) :
  attempts (sent p log) = log.
Proof.
  induction log as [|[m a] log IH]; [done|].
  change (attempts (sent p ((m, a) :: log))) with ((m, a) :: attempts (sent p log)).
  by rewrite IH.
Qed.

Lemma new_attempts_sent (tr0 : list event) (log : list (string * fetch_result)) :
  new_attempts tr0 (tr0 ++ sent p log) = log.
Proof. unfold new_attempts. by rewrite drop_app_length, attempts_sent. Qed.

Lemma try_block_eq (m : string) (tr : list event) :
  let rq := {| rq_model := m; rq_payload := p |} in
  let answer := fetch B (length tr) rq in
  try_block B cm p m tr = (attempt_completion B cm answer, tr ++ [EvFetch rq answer]).
Proof.
  unfold try_block, await_fetch, mbind, M_bind, lift, attempt_completion. simpl.
  by destruct (fetch B (length tr) _).
Qed.

(** Every execution of the loop is a [run]. *)
Lemma for_of_run (models : list string) :
  ∀ lastError tr res tr',
    for_of B cm p models lastError tr = (res, tr') →
    ∃ log, tr' = tr ++ sent p log ∧ run B cm models lastError log res.
Proof.
  induction models as [|m rest IH]; intros lastError tr res tr' Hrun.
  - inversion Hrun; subst. exists []. split; [by rewrite app_nil_r | constructor].
  - simpl in Hrun. rewrite try_block_eq in Hrun.
    set (answer := fetch B (length tr) _) in *.
    destruct (attempt_completion B cm answer) as [[data|]|e] eqn:Hc.
    + inversion Hrun; subst. exists [(m, answer)]. split; [done|].
      by apply run_return.
    + apply IH in Hrun as (log & -> & Hlog).
      exists ((m, answer) :: log). split; [by rewrite <- app_assoc|].
      by apply run_continue.
    + destruct (catch_block e) as [lastError'|e'] eqn:Hcatch.
      * apply IH in Hrun as (log & -> & Hlog).
        exists ((m, answer) :: log). split; [by rewrite <- app_assoc|].
        by eapply run_caught.
      * inversion Hrun; subst. exists [(m, answer)]. split; [done|].
        by eapply run_rethrown.
Qed.

Lemma run_prefix models lastError log res :
  run B cm models lastError log res → log.*1 `prefix_of` models.
Proof.
  induction 1; simpl; try apply prefix_nil; try (by apply prefix_cons);
    apply prefix_cons, prefix_nil.
Qed.

Lemma run_head m rest lastError log res :
  run B cm (m :: rest) lastError log res → ∃ answer log', log = (m, answer) :: log'.
Proof. inversion 1; subst; eauto. Qed.

(** The run seen from its [i]-th attempt on. *)
Lemma run_suffix models lastError log res :
  run B cm models lastError log res →
  ∀ i m answer, log !! i = Some (m, answer) →
    ∃ lastError' rest log',
      drop i models = m :: rest ∧ drop i log = (m, answer) :: log' ∧
      run B cm (m :: rest) lastError' ((m, answer) :: log') res.
Proof.
  induction 1 as [le|m0 rest le a data Ha|m0 rest le a log res Ha Hr IH
                 |m0 rest le a e le' log res Ha Hc Hr IH|m0 rest le a e e' Ha Hc];
    intros i m answer Hi.
  - done.
  - destruct i; [|done]. inversion Hi; subst.
    exists le, rest, []. repeat split. by apply run_return.
  - destruct i as [|i].
    + inversion Hi; subst. exists le, rest, log. repeat split. by apply run_continue.
    + by apply IH in Hi.
  - destruct i as [|i].
    + inversion Hi; subst. exists le, rest, log. repeat split. by eapply run_caught.
    + by apply IH in Hi.
  - destruct i; [|done]. inversion Hi; subst.
    exists le, rest, []. repeat split. by eapply run_rethrown.
Qed.

Lemma drop_singleton_length {A} (l : list A) i x :
  drop i l = [x] → length l = S i.
Proof.
  intros Hd. assert (Hl : length (drop i l) = 1) by by rewrite Hd.
  rewrite length_drop in Hl.
  destruct (decide (i < length l)) as [|Hge]; [lia|].
  rewrite drop_ge in Hd by lia. done.
Qed.

Lemma drop_lookup_next {A} (l : list A) i x y k :
  drop i l = x :: y :: k → l !! S i = Some y.
Proof.
  intros Hd. replace (S i) with (i + 1) by lia.
  by rewrite <- lookup_drop, Hd.
Qed.

Lemma check_response_credential r text :
  (status r = 401 ∨ status r = 403)%Z → body r = BodyText text →
  check_response B cm r = Throw (ThrownError cm).
Proof. unfold check_response, ok, read_body. intros [-> | ->] ->; reflexivity. Qed.

Lemma check_response_unavailable r text :
  (status r = 400 ∨ status r = 404)%Z → body r = BodyText text →
  check_response B cm r = Normal Continue.
Proof. unfold check_response, ok, read_body. intros [-> | ->] ->; reflexivity. Qed.

Lemma check_response_success r text data :
  ok r = true → body r = BodyText text → JSON_parse B (VStr text) = Parsed data →
  check_response B cm r = Normal (Return data).
Proof. unfold check_response, read_body. intros -> -> Hparse. simpl. by rewrite Hparse. Qed.

Lemma check_response_garbled r text message :
  ok r = true → body r = BodyText text → JSON_parse B (VStr text) = SyntaxError message →
  check_response B cm r = Throw (ThrownError message).
Proof. unfold check_response, read_body. intros -> -> Hparse. simpl. by rewrite Hparse. Qed.

Lemma check_response_other r errText :
  ok r = false →
  (status r ≠ 400 ∧ status r ≠ 401 ∧ status r ≠ 403 ∧ status r ≠ 404)%Z →
  body r = BodyText errText →
  check_response B cm r = Throw (groq_error r errText).
Proof.
  unfold check_response, read_body. intros -> (H400 & H401 & H403 & H404) ->. simpl.
  apply Z.eqb_neq in H400, H401, H403, H404.
  by rewrite H400, H401, H403, H404.
Qed.

(** Whatever the status, a body that cannot be read makes the [try] block
    throw the rejection of the read. *)
Lemma check_response_unreadable r message :
  body r = BodyFailed message →
  check_response B cm r = Throw (ThrownError message).
Proof. unfold check_response, read_body. intros ->. by destruct (ok r). Qed.

Lemma check_response_Continue_inv r :
  check_response B cm r = Normal Continue →
  (status r = 400 ∨ status r = 404)%Z ∧ ∃ text, body r = BodyText text.
Proof.
  unfold check_response, read_body.
  destruct (body r) as [text|message]; [|by destruct (ok r)].
  destruct (ok r); simpl.
  - by destruct (JSON_parse B _).
  - destruct (_ || _)%bool; [done|]. intros Hc. split; [|by exists text].
    destruct (status r =? 400)%Z eqn:H400; [apply Z.eqb_eq in H400; by left|].
    destruct (status r =? 404)%Z eqn:H404; [apply Z.eqb_eq in H404; by right|].
    done.
Qed.

Lemma check_response_Return_inv r data :
  check_response B cm r = Normal (Return data) →
  ok r = true ∧ ∃ text, body r = BodyText text ∧ JSON_parse B (VStr text) = Parsed data.
Proof.
  unfold check_response, read_body.
  destruct (body r) as [text|message]; [|by destruct (ok r)].
  destruct (ok r); simpl.
  - destruct (JSON_parse B _) eqn:Hparse; simpl; [|done].
    intros [= ->]. split; [done|]. by exists text.
  - by repeat case_match.
Qed.

Lemma attempt_completion_Continue_inv answer :
  attempt_completion B cm answer = Normal Continue → unavailable answer.
Proof.
  destruct answer as [r|text]; [|done]. intros Hc.
  apply check_response_Continue_inv in Hc as [Hst [text Hbody]]. by exists r, text.
Qed.

Lemma attempt_completion_unavailable answer :
  unavailable answer → attempt_completion B cm answer = Normal Continue.
Proof. intros (r & text & -> & Hst & Hbody). by eapply check_response_unavailable. Qed.

(** The [try] block throws error objects only, never [null]. *)
Lemma attempt_completion_throws_error answer e :
  attempt_completion B cm answer = Throw e → ∃ text, e = ThrownError text.
Proof.
  destruct answer as [r|text]; simpl; [|intros [= <-]; eauto].
  unfold check_response, groq_error, read_body.
  destruct (body r) as [text|message]; [|destruct (ok r); intros [= <-]; eauto].
  destruct (ok r); simpl.
  - destruct (JSON_parse B _); simpl; intros; simplify_eq; eauto.
  - repeat case_match; intros; simplify_eq; eauto.
Qed.

Lemma catch_block_error msg :
  catch_block (ThrownError msg) =
  if includes msg "API Key" then Throw (ThrownError msg) else Normal (ThrownError msg).
Proof. reflexivity. Qed.

Lemma catch_block_Normal_inv e lastError :
  catch_block e = Normal lastError →
  lastError = e ∧ ∃ text, e = ThrownError text ∧ includes text "API Key" = false.
Proof.
  destruct e as [|text]; [done|]. rewrite catch_block_error.
  destruct (includes text "API Key") eqn:Hinc; [done|]. intros [= <-]. eauto.
Qed.

Lemma catch_block_Throw_inv text e' :
  catch_block (ThrownError text) = Throw e' →
  e' = ThrownError text ∧ includes text "API Key" = true.
Proof.
  rewrite catch_block_error.
  destruct (includes text "API Key") eqn:Hinc; [|done]. by intros [= <-].
Qed.

(** An attempt answered 401 or 403 whose body was read ends the run with
    the credential error. *)
Lemma run_credential models lastError log res i m r text :
  includes cm "API Key" = true →
  run B cm models lastError log res →
  log !! i = Some (m, Answered r) →
  (status r = 401 ∨ status r = 403)%Z →
  body r = BodyText text →
  res = Throw (ThrownError cm) ∧ length log = S i.
Proof.
  intros Hcm Hrun Hi Hst Hbody.
  destruct (run_suffix _ _ _ _ Hrun _ _ _ Hi) as (le & rest & log' & _ & Hd & Hs).
  pose proof (check_response_credential r text Hst Hbody) as Hchk.
  inversion Hs; subst; simpl in *;
    try congruence;
    match goal with H : check_response _ _ _ = Throw _ |- _ =>
      rewrite Hchk in H; inversion H; subst end;
    match goal with H : catch_block _ = _ |- _ =>
      rewrite catch_block_error, Hcm in H; inversion H; subst end.
  split; [done|]. by eapply drop_singleton_length.
Qed.

(** An attempt answered with a success whose body was read and parses ends
    the run with the parsed data. *)
Lemma run_success models lastError log res i m r text data :
  run B cm models lastError log res →
  log !! i = Some (m, Answered r) →
  ok r = true → body r = BodyText text → JSON_parse B (VStr text) = Parsed data →
  res = Normal data ∧ length log = S i.
Proof.
  intros Hrun Hi Hok Hbody Hparse.
  destruct (run_suffix _ _ _ _ Hrun _ _ _ Hi) as (le & rest & log' & _ & Hd & Hs).
  pose proof (check_response_success r text data Hok Hbody Hparse) as Hchk.
  inversion Hs; subst; simpl in *; try congruence.
  match goal with H : check_response _ _ _ = Normal (Return _) |- _ =>
    rewrite Hchk in H; inversion H; subst end.
  split; [done|]. by eapply drop_singleton_length.
Qed.

(** The first candidate is always contacted. *)
Lemma run_first m rest lastError log res :
  run B cm (m :: rest) lastError log res → ∃ answer, log !! 0 = Some (m, answer).
Proof. intros Hrun. apply run_head in Hrun as (answer & log' & ->). by exists answer. Qed.

(** After an iteration that neither returned nor rethrew, the next
    candidate, if there is one, is contacted. *)
Lemma run_goes_on models rest lastError log log' res i m answer next :
  drop i models = m :: rest →
  drop i log = (m, answer) :: log' →
  run B cm rest lastError log' res →
  models !! S i = Some next →
  ∃ answer', log !! S i = Some (next, answer').
Proof.
  intros Hm Hd Hrun Hnext. destruct rest as [|m' rest'].
  { apply (f_equal length) in Hm. rewrite length_drop in Hm. simpl in Hm.
    apply lookup_lt_Some in Hnext. lia. }
  rewrite (drop_lookup_next _ _ _ _ _ Hm) in Hnext. inversion Hnext; subst.
  apply run_head in Hrun as (answer' & log'' & ->).
  exists answer'. by eapply drop_lookup_next.
Qed.

(** After an attempt answered 400 or 404 the next candidate is contacted. *)
Lemma run_unavailable models lastError log res i m answer next :
  run B cm models lastError log res →
  log !! i = Some (m, answer) →
  unavailable answer →
  models !! S i = Some next →
  ∃ answer', log !! S i = Some (next, answer').
Proof.
  intros Hrun Hi Hun Hnext.
  destruct (run_suffix _ _ _ _ Hrun _ _ _ Hi) as (le & rest & log' & Hm & Hd & Hs).
  apply attempt_completion_unavailable in Hun.
  inversion Hs; subst; simpl in *; try congruence.
  by eapply run_goes_on.
Qed.

(** When every attempt is answered 400 or 404 nothing is ever recorded:
    the loop goes through the whole list and ends by throwing the
    [lastError] it started with. *)
Lemma run_all_unavailable models lastError log res :
  run B cm models lastError log res →
  (∀ i m answer, log !! i = Some (m, answer) → unavailable answer) →
  res = Throw lastError ∧ length log = length models.
Proof.
  induction 1 as [le|m0 rest le a data Ha|m0 rest le a log res Ha Hr IH
                 |m0 rest le a e le' log res Ha Hc Hr IH|m0 rest le a e e' Ha Hc];
    intros Hall; [done|..];
    pose proof (attempt_completion_unavailable a (Hall 0 m0 a eq_refl)) as Hchk;
    simpl in *; try congruence.
  destruct IH as [-> Hlen]; [|by rewrite Hlen].
  intros i m answer Hi. by apply (Hall (S i) m answer).
Qed.

(** An attempt whose [try] block threw: the error is rethrown when its
    message names the key; otherwise it is recorded, the next candidate is
    contacted, and the run ends by throwing it when every later attempt is
    answered 400 or 404. *)
Lemma run_thrown models lastError log res i m answer text :
  run B cm models lastError log res →
  log !! i = Some (m, answer) →
  attempt_completion B cm answer = Throw (ThrownError text) →
  (includes text "API Key" = true → aborts_at log res i (ThrownError text)) ∧
  (includes text "API Key" = false →
     (∀ next, models !! S i = Some next → ∃ answer', log !! S i = Some (next, answer')) ∧
     ((∀ j m' answer', i < j → log !! j = Some (m', answer') → unavailable answer') →
      res = Throw (ThrownError text) ∧ length log = length models)).
Proof.
  intros Hrun Hi Hthrow.
  destruct (run_suffix _ _ _ _ Hrun _ _ _ Hi) as (le & rest & log' & Hm & Hd & Hs).
  inversion Hs; subst; simpl in *; try congruence;
    match goal with H : attempt_completion _ _ _ = Throw ?e |- _ =>
      assert (e = ThrownError text) by congruence; subst e end.
  - (* recorded *)
    match goal with H : catch_block _ = Normal _ |- _ =>
      apply catch_block_Normal_inv in H as (-> & text' & [= <-] & Hinc) end.
    split; [congruence|]. intros _. split.
    + intros next Hnext. by eapply run_goes_on.
    + intros Hlater.
      match goal with H : run _ _ rest _ _ _ |- _ =>
        apply run_all_unavailable in H as [-> Hlen] end.
      * split; [done|].
        apply (f_equal length) in Hm. apply (f_equal length) in Hd.
        rewrite length_drop in Hm. rewrite length_drop in Hd.
        simpl in Hm, Hd. lia.
      * intros k m' answer' Hk. apply (Hlater (i + S k) m'); [lia|].
        by rewrite <- lookup_drop, Hd.
  - (* rethrown *)
    match goal with H : catch_block _ = Throw _ |- _ =>
      apply catch_block_Throw_inv in H as [-> Hinc] end.
    split; [|congruence]. intros _.
    split; [done|]. by eapply drop_singleton_length.
Qed.

(** A run ends by throwing [null] only if it started with [null], went
    through every candidate and was answered 400 or 404 each time. *)
Lemma run_null_inv models lastError log :
  run B cm models lastError log (Throw ThrownNull) →
  lastError = ThrownNull ∧ length log = length models ∧
  ∀ i m answer, log !! i = Some (m, answer) → unavailable answer.
Proof.
  intros Hrun. remember (Throw ThrownNull) as res eqn:Hres.
  induction Hrun as [le|m0 rest le a data Ha|m0 rest le a log res Ha Hr IH
                    |m0 rest le a e le' log res Ha Hc Hr IH|m0 rest le a e e' Ha Hc].
  - inversion Hres; subst. by repeat split.
  - done.
  - destruct (IH Hres) as (-> & Hlen & Hall). repeat split; [simpl; lia|].
    intros [|i] m answer Hi; [|by eapply Hall].
    inversion Hi; subst. by apply attempt_completion_Continue_inv.
  - destruct (IH Hres) as (-> & _ & _).
    apply catch_block_Normal_inv in Hc as (Heq & text & Htext & _). congruence.
  - apply attempt_completion_throws_error in Ha as [text ->].
    apply catch_block_Throw_inv in Hc as [-> _]. done.
Qed.

(** A run that returns data got it from its last attempt, a success whose
    body was read and parsed to that data. *)
Lemma run_Normal_inv models lastError log data :
  run B cm models lastError log (Normal data) →
  ∃ m r text, last log = Some (m, Answered r) ∧ ok r = true ∧
              body r = BodyText text ∧ JSON_parse B (VStr text) = Parsed data.
Proof.
  intros Hrun. remember (Normal data) as res eqn:Hres.
  induction Hrun as [le|m0 rest le a data' Ha|m0 rest le a log res Ha Hr IH
                    |m0 rest le a e le' log res Ha Hc Hr IH|m0 rest le a e e' Ha Hc];
    try done.
  - inversion Hres; subst. destruct a as [r|text]; [|done].
    apply check_response_Return_inv in Ha as (Hok & text & Hbody & Hparse).
    by exists m0, r, text.
  - destruct (IH Hres) as (m & r & text & Hlast & Hrest).
    exists m, r, text. split; [|done].
    destruct log; [done|]. by rewrite last_cons, Hlast.
  - destruct (IH Hres) as (m & r & text & Hlast & Hrest).
    exists m, r, text. split; [|done].
    destruct log; [done|]. by rewrite last_cons, Hlast.
Qed.

(** Where the error of a failed run comes from: it is the [lastError] the
    run started with and every answer was 400 or 404, or an attempt threw it
    and every later answer was 400 or 404. *)
Lemma run_Throw_inv models lastError log e :
  run B cm models lastError log (Throw e) →
  (e = lastError ∧ ∀ i m answer, log !! i = Some (m, answer) → unavailable answer) ∨
  (∃ i m answer,
     log !! i = Some (m, answer) ∧ attempt_completion B cm answer = Throw e ∧
     ∀ j m' answer', i < j → log !! j = Some (m', answer') → unavailable answer').
Proof.
  intros Hrun. remember (Throw e) as res eqn:Hres.
  induction Hrun as [le|m0 rest le a data' Ha|m0 rest le a log res Ha Hr IH
                    |m0 rest le a e0 le' log res Ha Hc Hr IH|m0 rest le a e0 e' Ha Hc].
  - inversion Hres; subst. by left.
  - done.
  - destruct (IH Hres) as [[-> Hall]|(i & m & answer & Hi & Hthrow & Hlater)].
    + left. split; [done|]. intros [|i] m answer Hi; [|by eapply Hall].
      inversion Hi; subst. by apply attempt_completion_Continue_inv.
    + right. exists (S i), m, answer. repeat split; try done.
      intros [|j] m' answer' Hj Hlook; [lia|]. eapply (Hlater j); [lia|done].
  - apply catch_block_Normal_inv in Hc as (-> & text & -> & _).
    destruct (IH Hres) as [[-> Hall]|(i & m & answer & Hi & Hthrow & Hlater)].
    + right. exists 0, m0, a. repeat split; try done.
      intros [|j] m' answer' Hj Hlook; [lia|]. by eapply (Hall j).
    + right. exists (S i), m, answer. repeat split; try done.
      intros [|j] m' answer' Hj Hlook; [lia|]. eapply (Hlater j); [lia|done].
  - inversion Hres; subst.
    pose proof Ha as Ha'. apply attempt_completion_throws_error in Ha' as [text ->].
    apply catch_block_Throw_inv in Hc as [-> _].
    right. exists 0, m0, a. repeat split; try done.
    intros [|j] m' answer' Hj Hlook; [lia|]. by destruct j.
Qed.

End CascadeFacts.

Lemma credential_message_names_key (v : variant) :
  includes (credential_message v) "API Key" = true.
Proof. by destruct v. Qed.

Lemma VISION_MODELS_NoDup (v : variant) : NoDup (VISION_MODELS v).
Proof. destruct v; apply (bool_decide_unpack _); by vm_compute. Qed.

Lemma tryGroqAnalysis_for_of (v : variant) (B : Host) (p : payload) :
  tryGroqAnalysis v B p = for_of B (credential_message v) p (VISION_MODELS v) ThrownNull.
Proof. by destruct v. Qed.

(** Every invocation of the cascade is a run over the model list that
    starts with no error recorded, and adds its requests to the trace. *)
Lemma tryGroqAnalysis_run (v : variant) (B : Host) (p : payload) tr0 res tr :
  tryGroqAnalysis v B p tr0 = (res, tr) →
  tr = tr0 ++ sent p (new_attempts tr0 tr) ∧
  run B (credential_message v) (VISION_MODELS v) ThrownNull (new_attempts tr0 tr) res.
Proof.
  rewrite tryGroqAnalysis_for_of. intros Hrun.
  apply for_of_run in Hrun as (log & -> & Hlog).
  by rewrite new_attempts_sent.
Qed.

(** C3, as stated, fails: a first candidate that answers 200 with a body
    that is not JSON does not end the cascade; the second candidate is
    contacted and its reply is the result. *)
Lemma cascade_first_success_counterexample :
  ¬ first_success_wins GeminiService
      (Cases.first_garbled Script.bare_reply) {| image_url := Script.photo |}.
Proof.
  intros Hwins.
  set (p := {| image_url := Script.photo |}).
  set (log := [("llama-3.2-90b-vision-preview", Script.http 200 "<html>Bad gateway</html>");
               ("meta-llama/llama-4-scout-17b-16e-instruct",
                Script.replied Script.bare_reply)]).
  destruct (Hwins [] (Normal (Script.to_value (Script.envelope Script.bare_reply)))
              (sent p log) 0 "llama-3.2-90b-vision-preview"
              {| status := 200; body := BodyText "<html>Bad gateway</html>" |}) as [_ Hlen].
  - vm_compute; reflexivity.
  - reflexivity.
  - reflexivity.
  - vm_compute in Hlen. discriminate Hlen.
Qed.

(** C3, amended: the cascade contacts the candidates in list order starting
    with the first, each at most once; an attempt answered 400 or 404 whose
    body is read is followed by an attempt on the next candidate; an attempt
    answered with a success status whose body is read and parses ends the
    cascade with the parsed body as its result, so no later candidate is
    contacted; after a success status whose body is read but does not parse
    the next candidate is contacted, unless the message of the parse error
    contains "API Key". *)
Theorem cascade_in_order (v : variant) (B : Host) (p : payload) tr0 res tr :
  tryGroqAnalysis v B p tr0 = (res, tr) →
  let log := new_attempts tr0 tr in
  tr = tr0 ++ sent p log ∧
  log.*1 `prefix_of` VISION_MODELS v ∧
  NoDup log.*1 ∧
  (∀ m, VISION_MODELS v !! 0 = Some m → ∃ answer, log !! 0 = Some (m, answer)) ∧
  (∀ i m r text next,
     log !! i = Some (m, Answered r) →
     (status r = 400 ∨ status r = 404)%Z → body r = BodyText text →
     VISION_MODELS v !! S i = Some next →
     ∃ answer, log !! S i = Some (next, answer)) ∧
  (∀ i m r text data,
     log !! i = Some (m, Answered r) →
     ok r = true → body r = BodyText text → JSON_parse B (VStr text) = Parsed data →
     res = Normal data ∧ length log = S i) ∧
  (∀ i m r text message next,
     log !! i = Some (m, Answered r) →
     ok r = true → body r = BodyText text → JSON_parse B (VStr text) = SyntaxError message →
     includes message "API Key" = false →
     VISION_MODELS v !! S i = Some next →
     ∃ answer, log !! S i = Some (next, answer)).
Proof.
  intros Hrun log. apply tryGroqAnalysis_run in Hrun as [Htr Hrun].
  fold log in Htr, Hrun.
  pose proof (run_prefix _ _ _ _ _ _ Hrun) as Hpre.
  split; [done|]. split; [done|]. split; [|split; [|split; [|split]]].
  - destruct Hpre as [k Hk]. pose proof (VISION_MODELS_NoDup v) as Hnd.
    rewrite Hk in Hnd. by apply NoDup_app in Hnd as [? _].
  - intros m Hm. destruct (VISION_MODELS v) as [|m0 rest]; [done|].
    injection Hm as <-. by eapply run_first.
  - intros i m r text next Hi Hst Hbody Hnext.
    eapply run_unavailable; [done..| |done]. by exists r, text.
  - intros i m r text data. by eapply run_success.
  - intros i m r text message next Hi Hok Hbody Hparse Hinc Hnext.
    eapply run_thrown in Hrun as [_ Hgo]; [|done|by eapply check_response_garbled].
    destruct (Hgo Hinc) as [Hgoes _]. by apply Hgoes.
Qed.

(** The example of the specification: the first candidate answers 404, the
    second answers 200, the third is never contacted. *)
Lemma cascade_in_order_witness :
  let B := Script.second_answers Script.bare_reply in
  let p := {| image_url := Script.photo |} in
  let log := [("llama-3.2-90b-vision-preview", Script.http 404 "model not found");
              ("meta-llama/llama-4-scout-17b-16e-instruct", Script.replied Script.bare_reply)] in
  let data := Script.to_value (Script.envelope Script.bare_reply) in
  tryGroqAnalysis GeminiService B p [] = (Normal data, sent p log) ∧
  log.*1 `prefix_of` VISION_MODELS GeminiService ∧
  (∃ answer, log !! 0 = Some ("llama-3.2-90b-vision-preview", answer)) ∧
  (∃ answer, log !! 1 = Some ("meta-llama/llama-4-scout-17b-16e-instruct", answer)) ∧
  (Normal data = Normal data ∧ length log = 2).
Proof.
  intros B p log data.
  assert (Hrun : tryGroqAnalysis GeminiService B p [] = (Normal data, sent p log))
    by (vm_compute; reflexivity).
  split; [exact Hrun|].
  destruct (cascade_in_order GeminiService B p [] _ _ Hrun)
    as (_ & Hpre & _ & Hfirst & Hnext & Hlast & _).
  split; [exact Hpre|]. split; [|split].
  - apply (Hfirst "llama-3.2-90b-vision-preview"). reflexivity.
  - apply (Hnext 0 "llama-3.2-90b-vision-preview"
             {| status := 404; body := BodyText "model not found" |}
             "model not found" "meta-llama/llama-4-scout-17b-16e-instruct");
      [reflexivity | right; reflexivity | reflexivity | reflexivity].
  - apply (Hlast 1 "meta-llama/llama-4-scout-17b-16e-instruct"
             {| status := 200;
                body := BodyText (Script.to_text (Script.envelope Script.bare_reply)) |}
             (Script.to_text (Script.envelope Script.bare_reply)) data);
      [reflexivity | reflexivity | reflexivity | vm_compute; reflexivity].
Defined.

(** C4, as stated, fails: when the first candidate answers 401 and the
    connection breaks while the body of that answer is read, the cascade
    does not abort; the second candidate is contacted and its reply is the
    result. *)
Lemma cascade_credential_counterexample :
  ¬ aborts_on_credential GeminiService
      (Cases.unauthorized_cut_off Script.bare_reply) {| image_url := Script.photo |}.
Proof.
  intros Habort.
  set (p := {| image_url := Script.photo |}).
  set (log := [("llama-3.2-90b-vision-preview", Cases.cut_off 401);
               ("meta-llama/llama-4-scout-17b-16e-instruct",
                Script.replied Script.bare_reply)]).
  destruct (Habort [] (Normal (Script.to_value (Script.envelope Script.bare_reply)))
              (sent p log) 0 "llama-3.2-90b-vision-preview"
              {| status := 401; body := BodyFailed "network error" |}) as [Hres _].
  - vm_compute; reflexivity.
  - reflexivity.
  - by left.
  - discriminate Hres.
Qed.

(** C4, amended: when an attempt of the cascade is answered 401 or 403 and
    the body of that answer is read, the cascade fails with the credential
    error and that attempt is the last one made. *)
Theorem cascade_credential_fatal (v : variant) (B : Host) (p : payload)
    tr0 res tr i m r text :
  tryGroqAnalysis v B p tr0 = (res, tr) →
  new_attempts tr0 tr !! i = Some (m, Answered r) →
  (status r = 401 ∨ status r = 403)%Z →
  body r = BodyText text →
  aborts_at (new_attempts tr0 tr) res i (ThrownError (credential_message v)).
Proof.
  intros Hrun Hi Hst Hbody. apply tryGroqAnalysis_run in Hrun as [_ Hrun].
  eapply run_credential; eauto using credential_message_names_key.
Qed.

Lemma cascade_credential_fatal_witness :
  let p := {| image_url := Script.photo |} in
  let log := [("llama-3.2-90b-vision-preview", Script.http 401 "invalid key")] in
  aborts_at log (Throw (ThrownError "CRITICAL: API Key Restricted or Invalid.")) 0
            (ThrownError (credential_message GeminiService)).
Proof.
  intros p log.
  apply (cascade_credential_fatal GeminiService Script.unauthorized p []
           (Throw (ThrownError "CRITICAL: API Key Restricted or Invalid."))
           (sent p log) 0 "llama-3.2-90b-vision-preview"
           {| status := 401; body := BodyText "invalid key" |} "invalid key");
    [vm_compute; reflexivity | reflexivity | left; reflexivity | reflexivity].
Defined.

(** C5, as stated, fails: a first candidate answering 500 does not abort
    the cascade, the second candidate is contacted and its reply is the
    result. *)
Lemma cascade_unclassified_counterexample :
  ¬ aborts_on_unclassified GeminiService
      (Script.first_overloaded Script.bare_reply) {| image_url := Script.photo |}.
Proof.
  intros Habort.
  set (p := {| image_url := Script.photo |}).
  set (log := [("llama-3.2-90b-vision-preview", Script.http 500 "internal error");
               ("meta-llama/llama-4-scout-17b-16e-instruct",
                Script.replied Script.bare_reply)]).
  destruct (Habort [] (Normal (Script.to_value (Script.envelope Script.bare_reply)))
              (sent p log) 0 "llama-3.2-90b-vision-preview"
              {| status := 500; body := BodyText "internal error" |}
              "internal error") as [Hres _].
  - vm_compute; reflexivity.
  - reflexivity.
  - by repeat split.
  - reflexivity.
  - discriminate Hres.
Qed.

(** C5, amended: an attempt answered with a failure status other than 400,
    401, 403 and 404 whose body is read raises [Groq Error (status): body].
    When that text contains "API Key" the cascade stops there with that
    error.  Otherwise the error is recorded and the next candidate, if there
    is one, is contacted; and when every later attempt is answered 400 or
    404 with a body that is read (in particular when there is no later
    attempt) the cascade goes through the whole list and fails with that
    error. *)
Theorem cascade_unclassified_recorded (v : variant) (B : Host) (p : payload)
    tr0 res tr i m r errText :
  tryGroqAnalysis v B p tr0 = (res, tr) →
  new_attempts tr0 tr !! i = Some (m, Answered r) →
  unclassified r →
  body r = BodyText errText →
  recorded_or_fatal v (new_attempts tr0 tr) res i (groq_message r errText).
Proof.
  intros Hrun Hi [Hok Hst] Hbody.
  apply tryGroqAnalysis_run in Hrun as [_ Hrun].
  eapply run_thrown; [done..|]. by apply check_response_other.
Qed.

(** A 500 followed by a 404 and a 404: the second candidate is contacted
    and the cascade fails with the error of the 500. *)
Lemma cascade_unclassified_recorded_witness :
  let p := {| image_url := Script.photo |} in
  let log := [("llama-3.2-90b-vision-preview", Script.http 500 "internal error");
              ("meta-llama/llama-4-scout-17b-16e-instruct", Script.http 404 "model not found");
              ("llama-3.2-11b-vision-preview", Script.http 404 "model not found")] in
  let res := Throw (ThrownError "Groq Error (500): internal error") in
  tryGroqAnalysis GeminiService Cases.overloaded_rest_unavailable p [] = (res, sent p log) ∧
  (∃ answer, log !! 1 = Some ("meta-llama/llama-4-scout-17b-16e-instruct", answer)) ∧
  (res = Throw (ThrownError "Groq Error (500): internal error") ∧ length log = 3).
Proof.
  intros p log res.
  assert (Hrun : tryGroqAnalysis GeminiService Cases.overloaded_rest_unavailable p [] =
                 (res, sent p log)) by (vm_compute; reflexivity).
  split; [exact Hrun|].
  destruct (cascade_unclassified_recorded GeminiService
              Cases.overloaded_rest_unavailable p [] res (sent p log)
              0 "llama-3.2-90b-vision-preview"
              {| status := 500; body := BodyText "internal error" |}
              "internal error" Hrun) as [_ Hgo].
  - reflexivity.
  - repeat split; discriminate.
  - reflexivity.
  - destruct Hgo as [Hnext Hend]; [vm_compute; reflexivity|]. split.
    + apply (Hnext "meta-llama/llama-4-scout-17b-16e-instruct"). reflexivity.
    + apply Hend. intros [|[|[|j]]] m' answer Hj Hlook; [lia| | |done];
        inversion Hlook; subst;
        exists {| status := 404; body := BodyText "model not found" |}, "model not found";
        repeat split; by right.
Defined.

(** C6 fails on the code: when every candidate answers 400 or 404 no error
    is ever captured, and the cascade throws [null], the initial value of
    [lastError]. *)
Theorem cascade_exhausted_throws_null (v : variant) :
  tryGroqAnalysis v Script.all_unavailable {| image_url := Script.photo |} [] =
  (Throw ThrownNull,
   sent {| image_url := Script.photo |}
        ((λ m, (m, Script.http 404 "model not found")) <$> VISION_MODELS v)).
Proof. destruct v; vm_compute; reflexivity. Qed.

(** The same for any host: a cascade whose attempts are all answered 400 or
    404 throws [null]. *)
Lemma cascade_all_unavailable (v : variant) (B : Host) (p : payload) tr0 res tr :
  tryGroqAnalysis v B p tr0 = (res, tr) →
  (∀ i m answer, new_attempts tr0 tr !! i = Some (m, answer) → unavailable answer) →
  res = Throw ThrownNull.
Proof.
  intros Hrun Hall. apply tryGroqAnalysis_run in Hrun as [_ Hrun].
  by eapply run_all_unavailable in Hrun as [-> _].
Qed.

(** ** The preprocessor *)

Lemma Math_round_div_nearest (a b : Z) :
  (0 < b)%Z → nearest (Math_round_div a b) a b.
Proof.
  intros Hb. unfold nearest, Math_round_div.
  pose proof (Z.div_mod (2 * a + b) (2 * b) ltac:(lia)) as Hdm.
  pose proof (Z.mod_pos_bound (2 * a + b) (2 * b) ltac:(lia)) as Hmod.
  lia.
Qed.

(** C9: a decodable image wider than [maxWidth] is drawn on a canvas of
    width exactly [maxWidth] whose height is the integer nearest to
    [height * maxWidth / width]; an image at most [maxWidth] wide keeps its
    size; a 2048-wide image with [maxWidth = 1024] comes out 1024 wide, its
    height halved and rounded to the nearest integer. *)
Theorem compressImage_resize (B : Host) (base64Str : string) (maxWidth : Z) (quality : Q)
    (w h : Z) :
  load_image B (image_source base64Str) = Some (w, h) →
  (0 ≤ maxWidth)%Z →
  let encoded width height :=
    toDataURL B {| canvas_width := width; canvas_height := height;
                   drawn := image_source base64Str |} "image/jpeg" quality in
  ((maxWidth < w)%Z →
     ∃ h', compressImage B base64Str maxWidth quality = encoded maxWidth h' ∧
           nearest h' (h * maxWidth) w) ∧
  ((w ≤ maxWidth)%Z → compressImage B base64Str maxWidth quality = encoded w h) ∧
  (maxWidth = 1024%Z → w = 2048%Z →
     ∃ h', compressImage B base64Str maxWidth quality = encoded 1024%Z h' ∧
           nearest h' h 2).
Proof.
  intros Hload Hmax encoded. unfold compressImage. rewrite Hload.
  repeat split.
  - intros Hw. apply Z.ltb_lt in Hw as Hlt. rewrite Hlt.
    eexists. split; [reflexivity|]. apply Math_round_div_nearest. lia.
  - intros Hw. by apply Z.ltb_ge in Hw as ->.
  - intros -> ->. simpl. eexists. split; [reflexivity|].
    pose proof (Math_round_div_nearest (h * 1024) 2048 ltac:(lia)) as Hn.
    unfold nearest in *. lia.
Qed.

Lemma compressImage_resize_witness :
  ∃ h', compressImage Script.wide_photo Script.photo 1024 (7 # 10) =
        toDataURL Script.wide_photo
          {| canvas_width := 1024; canvas_height := h';
             drawn := image_source Script.photo |} "image/jpeg" (7 # 10) ∧
        nearest h' (1001 * 1024) 2048.
Proof.
  apply (compressImage_resize Script.wide_photo Script.photo 1024 (7 # 10) 2048 1001);
    [reflexivity | lia | lia].
Defined.

(** ** The entry point *)

Lemma get_Normal v k x :
  get v k = Normal x → nullish v = false ∧ x = prop v k.
Proof. unfold get. destruct (nullish v); [done|]. by intros [= <-]. Qed.

Lemma prop_insert_eq m k x : prop (VObj (<[k := x]> m)) k = x.
Proof. simpl. by rewrite lookup_insert_eq. Qed.

Lemma prop_insert_ne m k k' x :
  k ≠ k' → prop (VObj (<[k := x]> m)) k' = prop (VObj m) k'.
Proof. intros Hne. simpl. by rewrite lookup_insert_ne. Qed.

Lemma set_prop_eq v k x v' :
  set v k x = Normal v' → k ≠ "length" → prop v' k = x.
Proof.
  destruct v; simpl; intros [= <-] Hk; simpl.
  - apply String.eqb_neq in Hk as ->. by rewrite lookup_insert_eq.
  - by rewrite lookup_insert_eq.
Qed.

Lemma set_prop_ne v k x v' k' :
  set v k x = Normal v' → k ≠ k' → prop v' k' = prop v k'.
Proof.
  destruct v; simpl; intros [= <-] Hk; simpl.
  - destruct (String.eqb k' "length"); [done|]. by rewrite lookup_insert_ne.
  - by rewrite lookup_insert_ne.
Qed.

Lemma set_not_nullish v k x v' : set v k x = Normal v' → nullish v' = false.
Proof. by destruct v; simpl; intros [= <-]. Qed.

(** What a spread copies of a property that is there. *)
Lemma spread_prop v k x :
  prop v k = x → x ≠ VUndefined → k ≠ "length" → spread v !! k = Some x.
Proof.
  intros Hp Hx Hk. apply String.eqb_neq in Hk.
  destruct v as [| | | | |l ps|m]; simpl in *; rewrite ?Hk in Hp; try congruence.
  - destruct (ps !! k) as [y|] eqn:Hy; simpl in Hp; [|congruence].
    subst. by apply lookup_union_Some_l.
  - destruct (m !! k) as [y|] eqn:Hy; simpl in Hp; congruence.
Qed.

Lemma has_length_array l ps : has_length (VArr l ps) = true → l ≠ [].
Proof. by intros Hl ->. Qed.

Lemma has_length_nonempty_if_seq v : has_length v = true → nonempty_if_seq v.
Proof. intros Hl l ps ->. by eapply has_length_array. Qed.

Lemma nonempty_seq_has_length v : nonempty_seq v = true → has_length v = true.
Proof. by destruct v as [| | | | |[|x l] ps|]. Qed.

(** Binding in [M], read backwards. *)
Lemma M_bind_Normal {A C} (m : M A) (f : A → M C) tr c tr' :
  (m ≫= f) tr = (Normal c, tr') →
  ∃ a tr1, m tr = (Normal a, tr1) ∧ f a tr1 = (Normal c, tr').
Proof.
  unfold mbind, M_bind. destruct (m tr) as [[a|e] tr1]; [eauto | done].
Qed.

Lemma lift_Normal {A} (c : completion A) tr a tr' :
  lift c tr = (Normal a, tr') → c = Normal a ∧ tr' = tr.
Proof. by intros [= -> ->]. Qed.

Lemma analyzeSkinImage_unfold (v : variant) (B : Host) (img : string) :
  analyzeSkinImage v B img =
  if negb (truthy (GROQ_API_KEY B)) then
    alert "CRITICAL: Groq API Key is missing.";; mret missing_key_record
  else try_catch (analysis v B (compressImage B img 1024 (7 # 10))) (rescue v).
Proof. by destruct v. Qed.

Lemma rescue_Normal (v : variant) e tr r tr' :
  rescue v e tr = (Normal r, tr') →
  ∃ msg, message e = Normal msg ∧ r = catch_record v msg.
Proof.
  destruct e as [|msg]; [by destruct v|].
  destruct v; intros [= <- _]; by exists msg.
Qed.

(** A returned record is a fallback or the normalisation of a reply. *)
Lemma analyzeSkinImage_Normal (v : variant) (B : Host) img tr0 r tr :
  analyzeSkinImage v B img tr0 = (Normal r, tr) →
  fallback v r ∨ ∃ result tr1, normalize v result tr1 = (Normal r, tr).
Proof.
  rewrite analyzeSkinImage_unfold.
  destruct (truthy (GROQ_API_KEY B)); simpl.
  - unfold try_catch.
    destruct (analysis v B _ tr0) as [[r'|e] tr1] eqn:Han.
    + intros [= -> ->]. right.
      destruct v; unfold analysis, Gemini.analysis, Part000.analysis, Part001.analysis in Han;
        apply M_bind_Normal in Han as (data & tr2 & _ & Han);
        apply M_bind_Normal in Han as (result & tr3 & _ & Han); eauto.
    + intros Hres. left. right. apply rescue_Normal in Hres as (msg & _ & ->). eauto.
  - intros [= <- _]. by left; left.
Qed.

Lemma completion_bind_Normal {A C} (c : completion A) (f : A → completion C) x :
  c ≫= f = Normal x → ∃ a, c = Normal a ∧ f a = Normal x.
Proof. destruct c as [a|e]; [eauto | done]. Qed.

(** Takes a chain of bindings that completed normally apart, one step at a
    time. *)
Tactic Notation "unbind" hyp(H) "as" ident(a) ident(Ha) :=
  apply completion_bind_Normal in H as (a & Ha & H).

(** A property read that completed normally: the object is neither [null]
    nor [undefined] and the value read is the property. *)
Tactic Notation "unget" hyp(K) "as" ident(Hn) :=
  let a := fresh "x" in
  let Ha := fresh "Hx" in
  apply completion_bind_Normal in K as (a & Ha & K);
  apply get_Normal in Ha as [Hn ->].

Tactic Notation "unget" hyp(K) :=
  let Hn := fresh "Hn" in unget K as Hn; clear Hn.

Lemma complete_reply_field result k :
  complete_reply result → k ∈ guidance_fields → nonempty_seq (prop result k) = true.
Proof. intros Hc. apply Hc. Qed.

Lemma complete_reply_not_nullish result : complete_reply result → nullish result = false.
Proof.
  intros Hc. pose proof (Hc "symptoms" ltac:(set_solver)) as Hs.
  by destruct result.
Qed.

(** *** [part_001]: the backfill *)

Lemma backfill_spec k filler result result' :
  Part001.backfill k filler result = Normal result' →
  k ≠ "length" → has_length filler = true →
  has_length (prop result' k) = true ∧
  (∀ k', k ≠ k' → prop result' k' = prop result k') ∧
  nullish result' = false.
Proof.
  unfold Part001.backfill. intros Hb Hk Hfill. unget Hb as Hnn.
  fold (has_length (prop result k)) in Hb.
  destruct (has_length (prop result k)) eqn:Hlen; simpl in Hb.
  - by inversion Hb; subst.
  - repeat split.
    + by rewrite (set_prop_eq _ _ _ _ Hb Hk).
    + intros k' Hne. by eapply set_prop_ne.
    + by eapply set_not_nullish.
Qed.

(** A field that has content is left as it is. *)
Lemma backfill_kept k filler result :
  nullish result = false → has_length (prop result k) = true →
  Part001.backfill k filler result = Normal result.
Proof.
  intros Hnn Hlen. unfold Part001.backfill, get. rewrite Hnn. simpl.
  fold (has_length (prop result k)). by rewrite Hlen.
Qed.

Lemma part001_normalize_inv result r :
  Part001.normalize result = Normal r →
  ∃ filled,
    (∀ k, k ∈ backfilled_fields → has_length (prop filled k) = true) ∧
    prop filled "isSkin" = prop result "isSkin" ∧
    ((is_false (prop filled "isSkin") = false ∧ r = filled) ∨
     (prop filled "isSkin" = VBool false ∧
      prop r "isSkin" = VBool false ∧ prop r "isHealthy" = VBool false ∧
      prop r "symptoms" = Part001.no_skin_symptoms ∧
      prop r "reasons" = Part001.no_skin_reasons ∧
      prop r "precautions" = Part001.no_skin_precautions)).
Proof.
  unfold Part001.normalize. intros H.
  unbind H as r1 H1. unbind H as r2 H2. unbind H as r3 H3. unbind H as r4 H4.
  apply backfill_spec in H1 as (L1 & K1 & _); [|done..].
  apply backfill_spec in H2 as (L2 & K2 & _); [|done..].
  apply backfill_spec in H3 as (L3 & K3 & _); [|done..].
  apply backfill_spec in H4 as (L4 & K4 & _); [|done..].
  unget H. exists r4. split; [|split].
  - intros k Hk. unfold backfilled_fields in Hk.
    repeat (apply elem_of_cons in Hk as [->|Hk]).
    + by rewrite K4, K3, K2.
    + by rewrite K4, K3.
    + by rewrite K4.
    + done.
    + by apply elem_of_nil in Hk.
  - by rewrite K4, K3, K2, K1.
  - destruct (is_false (prop r4 "isSkin")) eqn:Hskin.
    + right. inversion H; subst; clear H.
      assert (Hs : prop r4 "isSkin" = VBool false).
      { destruct (prop r4 "isSkin") as [| |[|]| | | |]; done. }
      split; [done|]. repeat split.
      * pose proof (spread_prop r4 "isSkin" _ Hs ltac:(done) ltac:(done)) as Hsp.
        simpl. rewrite !lookup_insert_ne by done. by rewrite Hsp.
      * simpl. rewrite !lookup_insert_ne by done. by rewrite lookup_insert_eq.
      * simpl. rewrite !lookup_insert_ne by done. by rewrite lookup_insert_eq.
      * simpl. rewrite !lookup_insert_ne by done. by rewrite lookup_insert_eq.
      * simpl. by rewrite lookup_insert_eq.
    + left. by inversion H.
Qed.

(** *** [part_000]: the non-skin branch *)

Lemma part000_normalize_inv result r :
  Part000.normalize result = Normal r →
  (is_false (prop result "isSkin") = false ∧ r = result) ∨
  (prop r "isHealthy" = VBool false ∧
   truthy (prop r "reasons") = true ∧ nonempty_if_seq (prop r "reasons") ∧
   prop r "treatments" = arr [] ∧ prop r "prevention" = arr []).
Proof.
  unfold Part000.normalize. intros H. unget H.
  destruct (is_false (prop result "isSkin")) eqn:Hskin; [|left; by inversion H].
  right. unget H. unbind H as missing Hmiss. unbind H as result' Hset.
  do 4 (unget H). inversion H; subst; clear H.
  assert (Hreasons : truthy (prop result' "reasons") = true ∧
                     nonempty_if_seq (prop result' "reasons")).
  { destruct (truthy (prop result "reasons")) eqn:Htr; simpl in Hmiss.
    - unfold get in Hmiss.
      assert (Hr : nullish (prop result "reasons") = false)
        by (by destruct (prop result "reasons")).
      rewrite Hr in Hmiss. simpl in Hmiss. inversion Hmiss; subst; clear Hmiss.
      destruct (is_zero (prop (prop result "reasons") "length")) eqn:Hz.
      + rewrite (set_prop_eq _ _ _ _ Hset ltac:(done)).
        split; [done|]. by intros l ps [= <- <-].
      + inversion Hset; subst. split; [done|].
        intros l ps Hl. rewrite Hl in Hz. by destruct l.
    - inversion Hmiss; subst.
      rewrite (set_prop_eq _ _ _ _ Hset ltac:(done)).
      split; [done|]. by intros l ps [= <- <-]. }
  destruct Hreasons as [Htruthy Hseq].
  assert (Hsp : spread result' !! "reasons" = Some (prop result' "reasons")).
  { apply spread_prop; [done| |done]. intros Hu. by rewrite Hu in Htruthy. }
  repeat split.
  - simpl. rewrite !lookup_insert_ne by done. by rewrite lookup_insert_eq.
  - simpl. rewrite !lookup_insert_ne by done. by rewrite Hsp.
  - simpl. rewrite !lookup_insert_ne by done. by rewrite Hsp.
  - simpl. rewrite !lookup_insert_ne by done. by rewrite lookup_insert_eq.
  - simpl. by rewrite lookup_insert_eq.
Qed.

(** *** [geminiService.ts]: the non-skin branch *)

Lemma gemini_normalize_inv result tr r tr' :
  Gemini.normalize result tr = (Normal r, tr') →
  (is_false (prop result "isSkin") = false ∧ r = result) ∨
  prop r "isHealthy" = VBool false.
Proof.
  unfold Gemini.normalize. intros H.
  apply M_bind_Normal in H as (isSkin & tr1 & Hget & H).
  apply lift_Normal in Hget as [Hget ->]. apply get_Normal in Hget as [_ ->].
  destruct (is_false (prop result "isSkin")) eqn:Hskin.
  - right. inversion H; subst. simpl.
    rewrite !lookup_insert_ne by done. by rewrite lookup_insert_eq.
  - left. by inversion H.
Qed.

(** A reply that is not flagged as non-skin and whose guidance fields all
    have content comes back from the normalisation as it is. *)
Lemma normalize_complete (v : variant) result tr :
  complete_reply result → is_false (prop result "isSkin") = false →
  normalize v result tr = (Normal result, tr).
Proof.
  intros Hc Hskin. pose proof (complete_reply_not_nullish _ Hc) as Hnn.
  destruct v; simpl.
  - unfold Gemini.normalize, mbind, M_bind, lift, get. by rewrite Hnn, Hskin.
  - unfold lift, Part000.normalize, get. rewrite Hnn. simpl. by rewrite Hskin.
  - unfold lift, Part001.normalize.
    do 4 (rewrite backfill_kept
            by (try done; apply nonempty_seq_has_length, Hc; set_solver);
          simpl).
    unfold get. rewrite Hnn. simpl. by rewrite Hskin.
Qed.

Lemma fallback_unhealthy (v : variant) r : fallback v r → prop r "isHealthy" = VBool false.
Proof. intros [->|[msg ->]]; [done|]. by destruct v. Qed.

Lemma fallback_not_skin (v : variant) r : fallback v r → prop r "isSkin" = VBool false.
Proof. intros [->|[msg ->]]; [done|]. by destruct v. Qed.

(** C1 fails on the code: when every candidate answers 404 the cascade
    throws [null], the [catch] clause of [analyzeSkinImage] reads
    [error.message] of it, and the [TypeError] this raises rejects the
    promise (in the three variants alike). *)
Theorem analyzeSkinImage_rejects (v : variant) :
  (analyzeSkinImage v Script.all_unavailable Script.photo []).1 =
  Throw (ThrownError "Cannot read properties of null (reading 'message')").
Proof. destruct v; vm_compute; reflexivity. Qed.

(** The same for any host with a credential: whenever the cascade throws
    [null], [analyzeSkinImage] rejects. *)
Lemma rejects_when_cascade_throws_null (v : variant) (B : Host) img tr0 tr :
  truthy (GROQ_API_KEY B) = true →
  tryGroqAnalysis v B {| image_url := compressImage B img 1024 (7 # 10) |} tr0
    = (Throw ThrownNull, tr) →
  analyzeSkinImage v B img tr0 = (Throw (read_error VNull "message"), tr).
Proof.
  intros Hkey Hnull. rewrite analyzeSkinImage_unfold, Hkey. simpl.
  unfold try_catch.
  assert (Han : analysis v B (compressImage B img 1024 (7 # 10)) tr0 = (Throw ThrownNull, tr)).
  { destruct v; simpl in *;
      unfold Gemini.analysis, Part000.analysis, Part001.analysis, mbind, M_bind;
      by rewrite Hnull. }
  rewrite Han. by destruct v.
Qed.

(** C2, as stated, fails: the record returned after a 401 has
    [isSkin === false] and neither reasons nor precautions. *)
Lemma rejection_explained_counterexample :
  (analyzeSkinImage GeminiService Script.unauthorized Script.photo []).1 =
    Normal (analysis_error_record "CRITICAL: API Key Restricted or Invalid.") ∧
  ¬ rejection_explained (analysis_error_record "CRITICAL: API Key Restricted or Invalid.").
Proof.
  split; [vm_compute; reflexivity|].
  intros Hex. destruct Hex as (_ & Hreasons & _); [reflexivity|].
  discriminate Hreasons.
Qed.

(** C2, amended: every returned record with [isSkin === false] has
    [isHealthy === false]; unless it is a fallback record (missing
    credential or caught error), [part_001] gives it non-empty reasons and
    precautions, and [part_000] reasons that are truthy and, if an array,
    not empty. *)
Theorem rejection_marks_unhealthy (v : variant) (B : Host) img tr0 r tr :
  analyzeSkinImage v B img tr0 = (Normal r, tr) →
  prop r "isSkin" = VBool false →
  prop r "isHealthy" = VBool false ∧
  (fallback v r ∨
   match v with
   | GeminiService => True
   | Part000Service =>
       truthy (prop r "reasons") = true ∧ nonempty_if_seq (prop r "reasons")
   | Part001Service =>
       nonempty_seq (prop r "reasons") = true ∧
       nonempty_seq (prop r "precautions") = true
   end).
Proof.
  intros Hrun Hskin.
  apply analyzeSkinImage_Normal in Hrun as [Hfb|(result & tr1 & Hnorm)].
  { split; [by eapply fallback_unhealthy | by left]. }
  destruct v; simpl in Hnorm.
  - apply gemini_normalize_inv in Hnorm as [[Hns ->]|Hh].
    + by rewrite Hskin in Hns.
    + split; [done | by right].
  - apply lift_Normal in Hnorm as [Hnorm _].
    apply part000_normalize_inv in Hnorm as [[Hns ->]|(Hh & Ht & Hseq & _)].
    + by rewrite Hskin in Hns.
    + split; [done | by right].
  - apply lift_Normal in Hnorm as [Hnorm _].
    apply part001_normalize_inv in Hnorm
      as (filled & _ & _ & [[Hns ->]|(_ & _ & Hh & _ & Hre & Hpr)]).
    + by rewrite Hskin in Hns.
    + split; [done|]. right. by rewrite Hre, Hpr.
Qed.

Lemma rejection_marks_unhealthy_witness :
  let out := analyzeSkinImage Part001Service
               (Script.answering (Script.full_reply false)) Script.photo [] in
  let r := Script.returned out in
  prop r "isHealthy" = VBool false ∧
  (fallback Part001Service r ∨
   nonempty_seq (prop r "reasons") = true ∧ nonempty_seq (prop r "precautions") = true).
Proof.
  intros out r.
  apply (rejection_marks_unhealthy Part001Service
           (Script.answering (Script.full_reply false)) Script.photo [] r out.2);
    vm_compute; reflexivity.
Defined.

(** C7, as stated, fails: [geminiService.ts] returns a healthy-skin reply
    with empty treatments and precautions as it is, and [part_001] returns
    it with its treatments still empty. *)
Lemma guidance_present_counterexample :
  (analyzeSkinImage GeminiService (Script.answering Script.bare_reply) Script.photo []).1 =
    Normal (Script.to_value Script.bare_reply) ∧
  ¬ guidance_present (Script.to_value Script.bare_reply) ∧
  ¬ guidance_present
      (Script.returned
         (analyzeSkinImage Part001Service (Script.answering Script.bare_reply)
            Script.photo [])).
Proof.
  split; [vm_compute; reflexivity|].
  split; intros Hg; destruct Hg as [Ht _]; try (vm_compute; reflexivity);
    vm_compute in Ht; discriminate Ht.
Qed.

(** C7, amended: in [part_001] every returned record with
    [isSkin === true] has symptoms, reasons, precautions and prevention with
    a truthy length, so none of them is an empty array (nothing is said of
    treatments, which the backfill leaves alone). *)
Theorem part001_backfilled (B : Host) img tr0 r tr k :
  analyzeSkinImage Part001Service B img tr0 = (Normal r, tr) →
  prop r "isSkin" = VBool true →
  k ∈ backfilled_fields →
  has_length (prop r k) = true ∧ nonempty_if_seq (prop r k).
Proof.
  intros Hrun Hskin Hk.
  cut (has_length (prop r k) = true).
  { intros Hl. split; [done | by apply has_length_nonempty_if_seq]. }
  apply analyzeSkinImage_Normal in Hrun as [Hfb|(result & tr1 & Hnorm)].
  { apply fallback_not_skin in Hfb. congruence. }
  apply lift_Normal in Hnorm as [Hnorm _].
  apply part001_normalize_inv in Hnorm
    as (filled & Hfilled & _ & [[_ ->]|(_ & Hns & _)]).
  - by apply Hfilled.
  - congruence.
Qed.

Lemma part001_backfilled_witness :
  let out := analyzeSkinImage Part001Service
               (Script.answering Script.bare_reply) Script.photo [] in
  has_length (prop (Script.returned out) "precautions") = true ∧
  nonempty_if_seq (prop (Script.returned out) "precautions").
Proof.
  intros out.
  apply (part001_backfilled (Script.answering Script.bare_reply) Script.photo []
           (Script.returned out) out.2 "precautions");
    [vm_compute; reflexivity | vm_compute; reflexivity
    | apply (bool_decide_unpack _); vm_compute; reflexivity].
Defined.

(** C8, as stated, fails: [part_001] replaces the symptoms (and reasons and
    precautions) of a complete reply that says [isSkin: false]. *)
Lemma guidance_unmodified_counterexample :
  let result := Script.to_value (Script.full_reply false) in
  let r := Script.returned
             (analyzeSkinImage Part001Service (Script.answering (Script.full_reply false))
                Script.photo []) in
  complete_reply result ∧
  prop r "symptoms" = Part001.no_skin_symptoms ∧
  ¬ guidance_unmodified result r.
Proof.
  intros result r. split; [|split].
  - intros k Hk. unfold guidance_fields in Hk.
    repeat (apply elem_of_cons in Hk as [->|Hk]); try (vm_compute; reflexivity).
    by apply elem_of_nil in Hk.
  - vm_compute; reflexivity.
  - intros Hu. specialize (Hu "symptoms" ltac:(set_solver)).
    vm_compute in Hu. discriminate Hu.
Qed.

(** C8, amended: when the reply of the model parses to a value that is not
    flagged [isSkin: false] and whose symptoms, reasons, precautions,
    prevention and treatments are all non-empty arrays, [analyzeSkinImage]
    returns that very value: none of those arrays, and no other field, is
    modified. *)
Theorem complete_reply_returned (v : variant) (B : Host) img tr0 data tr result :
  truthy (GROQ_API_KEY B) = true →
  tryGroqAnalysis v B {| image_url := compressImage B img 1024 (7 # 10) |} tr0
    = (Normal data, tr) →
  parse_reply B data = Normal result →
  complete_reply result →
  is_false (prop result "isSkin") = false →
  analyzeSkinImage v B img tr0 = (Normal result, tr).
Proof.
  intros Hkey Hcascade Hparse Hc Hskin.
  rewrite analyzeSkinImage_unfold, Hkey. simpl. unfold try_catch.
  pose proof (normalize_complete v result tr Hc Hskin) as Hnorm.
  assert (Han : analysis v B (compressImage B img 1024 (7 # 10)) tr0 = (Normal result, tr)).
  { destruct v; simpl in *;
      unfold Gemini.analysis, Part000.analysis, Part001.analysis, mbind, M_bind;
      rewrite Hcascade; unfold lift at 1; by rewrite Hparse. }
  by rewrite Han.
Qed.

Lemma complete_reply_returned_witness :
  let B := Script.answering (Script.full_reply true) in
  analyzeSkinImage Part001Service B Script.photo [] =
  (Normal (Script.to_value (Script.full_reply true)),
   sent {| image_url := compressImage B Script.photo 1024 (7 # 10) |}
        [("meta-llama/llama-4-scout-17b-16e-instruct",
          Script.replied (Script.full_reply true))]).
Proof.
  intros B.
  apply (complete_reply_returned Part001Service B Script.photo []
           (Script.to_value (Script.envelope (Script.full_reply true)))).
  - reflexivity.
  - vm_compute; reflexivity.
  - vm_compute; reflexivity.
  - intros k Hk. unfold guidance_fields in Hk.
    repeat (apply elem_of_cons in Hk as [->|Hk]); try (vm_compute; reflexivity).
    by apply elem_of_nil in Hk.
  - reflexivity.
Defined.

Lemma missing_key_record_short : short_fallback missing_key_record.
Proof.
  split; [|split].
  - eexists. split; [reflexivity|]. by vm_compute.
  - intros k Hk. unfold omitted_fields in Hk.
    repeat (apply elem_of_cons in Hk as [->|Hk]); try (vm_compute; reflexivity).
    by apply elem_of_nil in Hk.
  - vm_compute; reflexivity.
Qed.

Lemma analysis_error_record_short msg : short_fallback (analysis_error_record msg).
Proof.
  split; [|split].
  - eexists. split; [reflexivity|]. simpl.
    rewrite !dom_insert_L, dom_empty_L. set_solver.
  - intros k Hk. unfold omitted_fields in Hk.
    repeat (apply elem_of_cons in Hk as [->|Hk]); try (vm_compute; reflexivity).
    by apply elem_of_nil in Hk.
  - vm_compute; reflexivity.
Qed.

(** C10: the record returned when the credential is missing (any variant)
    and the record returned by the [catch] clause of [geminiService.ts] and
    [part_001] have exactly the fields [isSkin], [isHealthy], [diseaseName]
    and [description]; the seven other fields of [SkinAnalysis] are
    [undefined], and the record does not have the declared shape. *)
Theorem fallback_record_short (v : variant) (B : Host) img tr0 r tr :
  analyzeSkinImage v B img tr0 = (Normal r, tr) →
  truthy (GROQ_API_KEY B) = false ∨
  (v ≠ Part000Service ∧
   ∃ e tr1, analysis v B (compressImage B img 1024 (7 # 10)) tr0 = (Throw e, tr1)) →
  short_fallback r.
Proof.
  rewrite analyzeSkinImage_unfold. intros Hrun Hpath.
  destruct (truthy (GROQ_API_KEY B)) eqn:Hkey; simpl in Hrun.
  - destruct Hpath as [|(Hv & e & tr1 & Han)]; [done|].
    unfold try_catch in Hrun. rewrite Han in Hrun.
    apply rescue_Normal in Hrun as (msg & _ & ->).
    destruct v; [|done|]; apply analysis_error_record_short.
  - inversion Hrun; subst. apply missing_key_record_short.
Qed.

Lemma fallback_record_short_witness :
  short_fallback (analysis_error_record "CRITICAL: API Key Restricted or Invalid.") ∧
  short_fallback missing_key_record.
Proof.
  split.
  - apply (fallback_record_short GeminiService Script.unauthorized Script.photo []
             (analysis_error_record "CRITICAL: API Key Restricted or Invalid.")
             (sent {| image_url := compressImage Script.unauthorized Script.photo 1024 (7 # 10) |}
                   [("llama-3.2-90b-vision-preview", Script.http 401 "invalid key")]
              ++ [EvAlert "Analysis Failed: CRITICAL: API Key Restricted or Invalid."])).
    + vm_compute; reflexivity.
    + right. split; [discriminate|].
      eexists _, _. vm_compute; reflexivity.
  - apply (fallback_record_short Part000Service Script.unconfigured Script.photo []
             missing_key_record [EvAlert "CRITICAL: Groq API Key is missing."]).
    + vm_compute; reflexivity.
    + left. reflexivity.
Defined.

(** ** Worked examples *)

(** Without a credential nothing is sent: the only effect is the alert. *)
Example unconfigured_sends_nothing (v : variant) :
  analyzeSkinImage v Script.unconfigured Script.photo [] =
  (Normal missing_key_record, [EvAlert "CRITICAL: Groq API Key is missing."]).
Proof. destruct v; vm_compute; reflexivity. Qed.

(** An image that does not decode is sent as it came. *)
Example undecodable_passthrough (base64Str : string) :
  compressImage (Script.host Script.key None [] []) base64Str 1024 (7 # 10) = base64Str.
Proof. reflexivity. Qed.

(** A reply with nothing in it: [geminiService.ts] and [part_000] return it
    as it is, [part_001] fills in four of its lists. *)
Example bare_reply_returned :
  Script.returned (analyzeSkinImage GeminiService (Script.answering Script.bare_reply)
                     Script.photo []) = Script.to_value Script.bare_reply ∧
  Script.returned (analyzeSkinImage Part000Service (Script.answering Script.bare_reply)
                     Script.photo []) = Script.to_value Script.bare_reply ∧
  let r := Script.returned (analyzeSkinImage Part001Service
                              (Script.answering Script.bare_reply) Script.photo []) in
  prop r "symptoms" = Part001.default_symptoms ∧
  prop r "reasons" = Part001.default_reasons ∧
  prop r "precautions" = Part001.defaultAdvice ∧
  prop r "prevention" = Part001.defaultAdvice ∧
  prop r "treatments" = arr [].
Proof. repeat split; vm_compute; reflexivity. Qed.

(** A 500 followed by a 404 and a 404: the cascade fails with the error of
    the 500, the last one it captured. *)
Example overloaded_then_unavailable :
  (tryGroqAnalysis GeminiService
     (Script.host Script.key None
        [Script.http 500 "internal error"; Script.http 404 "model not found";
         Script.http 404 "model not found"] [])
     {| image_url := Script.photo |} []).1 =
  Throw (ThrownError "Groq Error (500): internal error").
Proof. vm_compute; reflexivity. Qed.

(** ** More on the cascade *)

(** X1: an attempt whose request fails on the network (the [fetch] promise
    rejects) ends the cascade at once only when the message of the failure
    contains "API Key".  Otherwise the error is recorded and the next
    candidate, if there is one, is contacted; and when every later attempt
    is answered 400 or 404 with a body that is read (in particular when
    there is no later attempt) the cascade goes through the whole list and
    fails with that error. *)
Theorem cascade_network_failure (v : variant) (B : Host) (p : payload) tr0 res tr i m text :
  tryGroqAnalysis v B p tr0 = (res, tr) →
  new_attempts tr0 tr !! i = Some (m, Rejected text) →
  recorded_or_fatal v (new_attempts tr0 tr) res i text.
Proof.
  intros Hrun Hi. apply tryGroqAnalysis_run in Hrun as [_ Hrun].
  by eapply run_thrown.
Qed.

(** A network failure followed by a 404 and a 404: the second candidate is
    contacted and the cascade fails with the network failure. *)
Lemma cascade_network_failure_witness :
  let p := {| image_url := Script.photo |} in
  let log := [("llama-3.2-90b-vision-preview", Rejected "Failed to fetch");
              ("meta-llama/llama-4-scout-17b-16e-instruct", Script.http 404 "model not found");
              ("llama-3.2-11b-vision-preview", Script.http 404 "model not found")] in
  let res := Throw (ThrownError "Failed to fetch") in
  tryGroqAnalysis GeminiService Cases.dropped_rest_unavailable p [] = (res, sent p log) ∧
  (∃ answer, log !! 1 = Some ("meta-llama/llama-4-scout-17b-16e-instruct", answer)) ∧
  (res = Throw (ThrownError "Failed to fetch") ∧ length log = 3).
Proof.
  intros p log res.
  assert (Hrun : tryGroqAnalysis GeminiService Cases.dropped_rest_unavailable p [] =
                 (res, sent p log)) by (vm_compute; reflexivity).
  split; [exact Hrun|].
  destruct (cascade_network_failure GeminiService Cases.dropped_rest_unavailable p []
              res (sent p log) 0 "llama-3.2-90b-vision-preview" "Failed to fetch" Hrun)
    as [_ Hgo].
  - reflexivity.
  - destruct Hgo as [Hnext Hend]; [vm_compute; reflexivity|]. split.
    + apply (Hnext "meta-llama/llama-4-scout-17b-16e-instruct"). reflexivity.
    + apply Hend. intros [|[|[|j]]] m' answer Hj Hlook; [lia| | |done];
        inversion Hlook; subst;
        exists {| status := 404; body := BodyText "model not found" |}, "model not found";
        repeat split; by right.
Defined.

(** X2: an answer with a success status whose body is read but is not JSON
    is treated like a failed attempt, with the [SyntaxError] of
    [response.json()] as its error: the cascade stops there only when the
    message of that error contains "API Key".  Otherwise the error is
    recorded and the next candidate, if there is one, is contacted; and when
    every later attempt is answered 400 or 404 with a body that is read (in
    particular when there is no later attempt) the cascade goes through the
    whole list and fails with that error. *)
Theorem cascade_garbled_success (v : variant) (B : Host) (p : payload)
    tr0 res tr i m r text message :
  tryGroqAnalysis v B p tr0 = (res, tr) →
  new_attempts tr0 tr !! i = Some (m, Answered r) →
  ok r = true →
  body r = BodyText text →
  JSON_parse B (VStr text) = SyntaxError message →
  recorded_or_fatal v (new_attempts tr0 tr) res i message.
Proof.
  intros Hrun Hi Hok Hbody Hparse. apply tryGroqAnalysis_run in Hrun as [_ Hrun].
  eapply run_thrown; [done..|]. by eapply check_response_garbled.
Qed.

(** A page that is not JSON followed by a 404 and a 404: the second
    candidate is contacted and the cascade fails with the parse error. *)
Lemma cascade_garbled_success_witness :
  let p := {| image_url := Script.photo |} in
  let log := [("llama-3.2-90b-vision-preview", Script.http 200 "<html>Bad gateway</html>");
              ("meta-llama/llama-4-scout-17b-16e-instruct", Script.http 404 "model not found");
              ("llama-3.2-11b-vision-preview", Script.http 404 "model not found")] in
  let res := Throw (ThrownError "Unexpected token") in
  tryGroqAnalysis GeminiService Cases.garbled_rest_unavailable p [] = (res, sent p log) ∧
  (∃ answer, log !! 1 = Some ("meta-llama/llama-4-scout-17b-16e-instruct", answer)) ∧
  (res = Throw (ThrownError "Unexpected token") ∧ length log = 3).
Proof.
  intros p log res.
  assert (Hrun : tryGroqAnalysis GeminiService Cases.garbled_rest_unavailable p [] =
                 (res, sent p log)) by (vm_compute; reflexivity).
  split; [exact Hrun|].
  destruct (cascade_garbled_success GeminiService Cases.garbled_rest_unavailable p []
              res (sent p log) 0 "llama-3.2-90b-vision-preview"
              {| status := 200; body := BodyText "<html>Bad gateway</html>" |}
              "<html>Bad gateway</html>" "Unexpected token" Hrun)
    as [_ Hgo].
  - reflexivity.
  - reflexivity.
  - reflexivity.
  - vm_compute; reflexivity.
  - destruct Hgo as [Hnext Hend]; [vm_compute; reflexivity|]. split.
    + apply (Hnext "meta-llama/llama-4-scout-17b-16e-instruct"). reflexivity.
    + apply Hend. intros [|[|[|j]]] m' answer Hj Hlook; [lia| | |done];
        inversion Hlook; subst;
        exists {| status := 404; body := BodyText "model not found" |}, "model not found";
        repeat split; by right.
Defined.

(** X3: the cascade throws [null] exactly when it contacted every candidate
    and every one of them answered 400 or 404 with a body that was read. *)
Theorem cascade_throws_null_iff (v : variant) (B : Host) (p : payload) tr0 res tr :
  tryGroqAnalysis v B p tr0 = (res, tr) →
  (res = Throw ThrownNull ↔
   length (new_attempts tr0 tr) = length (VISION_MODELS v) ∧
   ∀ i m answer, new_attempts tr0 tr !! i = Some (m, answer) → unavailable answer).
Proof.
  intros Hrun. apply tryGroqAnalysis_run in Hrun as [_ Hrun]. split.
  - intros ->. by apply run_null_inv in Hrun as (_ & Hlen & Hall).
  - intros [_ Hall]. by eapply run_all_unavailable in Hrun as [-> _].
Qed.

Lemma cascade_throws_null_iff_witness :
  let p := {| image_url := Script.photo |} in
  let log := (λ m, (m, Script.http 404 "model not found")) <$> VISION_MODELS Part001Service in
  length log = length (VISION_MODELS Part001Service) ∧
  ∀ i m answer, log !! i = Some (m, answer) → unavailable answer.
Proof.
  intros p log.
  apply (cascade_throws_null_iff Part001Service Script.all_unavailable p []
           (Throw ThrownNull) (sent p log));
    [vm_compute; reflexivity | reflexivity].
Defined.

(** X4: data the cascade returns is never made up: it is the parsed body of
    the last answer received, and that answer had a success status. *)
Theorem cascade_result_from_last (v : variant) (B : Host) (p : payload) tr0 data tr :
  tryGroqAnalysis v B p tr0 = (Normal data, tr) →
  ∃ m r text, last (new_attempts tr0 tr) = Some (m, Answered r) ∧ ok r = true ∧
              body r = BodyText text ∧ JSON_parse B (VStr text) = Parsed data.
Proof.
  intros Hrun. apply tryGroqAnalysis_run in Hrun as [_ Hrun].
  by eapply run_Normal_inv.
Qed.

Lemma cascade_result_from_last_witness :
  let B := Script.second_answers Script.bare_reply in
  let log := [("llama-3.2-90b-vision-preview", Script.http 404 "model not found");
              ("meta-llama/llama-4-scout-17b-16e-instruct", Script.replied Script.bare_reply)] in
  ∃ m r text, last log = Some (m, Answered r) ∧ ok r = true ∧
              body r = BodyText text ∧
              JSON_parse B (VStr text) =
              Parsed (Script.to_value (Script.envelope Script.bare_reply)).
Proof.
  intros B log.
  apply (cascade_result_from_last GeminiService B {| image_url := Script.photo |} []
           (Script.to_value (Script.envelope Script.bare_reply))
           (sent {| image_url := Script.photo |} log)).
  vm_compute; reflexivity.
Defined.

(** X5: the error of a failed cascade, when it is not [null], is the error
    the [try] block raised on one of the attempts, and every attempt after
    that one was answered 400 or 404 with a body that was read (answers
    that leave no error behind): it is the last error raised, not the error
    of the last attempt. *)
Theorem cascade_failure_provenance (v : variant) (B : Host) (p : payload) tr0 e tr :
  tryGroqAnalysis v B p tr0 = (Throw e, tr) →
  e ≠ ThrownNull →
  ∃ i m answer,
    new_attempts tr0 tr !! i = Some (m, answer) ∧
    attempt_completion B (credential_message v) answer = Throw e ∧
    ∀ j m' answer', i < j → new_attempts tr0 tr !! j = Some (m', answer') →
                    unavailable answer'.
Proof.
  intros Hrun Hne. apply tryGroqAnalysis_run in Hrun as [_ Hrun].
  by apply run_Throw_inv in Hrun as [[-> _]|Hfrom].
Qed.

Lemma cascade_failure_provenance_witness :
  let B := Script.host Script.key None
             [Script.http 500 "internal error"; Script.http 404 "model not found";
              Script.http 404 "model not found"] [] in
  let log := [("llama-3.2-90b-vision-preview", Script.http 500 "internal error");
              ("meta-llama/llama-4-scout-17b-16e-instruct", Script.http 404 "model not found");
              ("llama-3.2-11b-vision-preview", Script.http 404 "model not found")] in
  ∃ i m answer,
    log !! i = Some (m, answer) ∧
    attempt_completion B (credential_message GeminiService) answer =
      Throw (ThrownError "Groq Error (500): internal error") ∧
    ∀ j m' answer', i < j → log !! j = Some (m', answer') → unavailable answer'.
Proof.
  intros B log.
  apply (cascade_failure_provenance GeminiService B {| image_url := Script.photo |} []
           (ThrownError "Groq Error (500): internal error")
           (sent {| image_url := Script.photo |} log));
    [vm_compute; reflexivity | discriminate].
Defined.

(** X20: an answer whose body cannot be read is treated like a failed
    attempt whatever its status, 401 and 404 included, with the rejection of
    the read as its error: the cascade stops there only when the message of
    that error contains "API Key".  Otherwise the error is recorded and the
    next candidate, if there is one, is contacted; and when every later
    attempt is answered 400 or 404 with a body that is read (in particular
    when there is no later attempt) the cascade goes through the whole list
    and fails with that error. *)
Theorem cascade_unreadable_body (v : variant) (B : Host) (p : payload)
    tr0 res tr i m r message :
  tryGroqAnalysis v B p tr0 = (res, tr) →
  new_attempts tr0 tr !! i = Some (m, Answered r) →
  body r = BodyFailed message →
  recorded_or_fatal v (new_attempts tr0 tr) res i message.
Proof.
  intros Hrun Hi Hbody. apply tryGroqAnalysis_run in Hrun as [_ Hrun].
  eapply run_thrown; [done..|]. by apply check_response_unreadable.
Qed.

(** A 401 whose body cannot be read, then a reply: the second candidate is
    contacted and its reply is the result. *)
Lemma cascade_unreadable_body_witness :
  let p := {| image_url := Script.photo |} in
  let B := Cases.unauthorized_cut_off Script.bare_reply in
  let log := [("llama-3.2-90b-vision-preview", Cases.cut_off 401);
              ("meta-llama/llama-4-scout-17b-16e-instruct",
               Script.replied Script.bare_reply)] in
  let res := Normal (Script.to_value (Script.envelope Script.bare_reply)) in
  tryGroqAnalysis GeminiService B p [] = (res, sent p log) ∧
  ∃ answer, log !! 1 = Some ("meta-llama/llama-4-scout-17b-16e-instruct", answer).
Proof.
  intros p B log res.
  assert (Hrun : tryGroqAnalysis GeminiService B p [] = (res, sent p log))
    by (vm_compute; reflexivity).
  split; [exact Hrun|].
  destruct (cascade_unreadable_body GeminiService B p [] res (sent p log)
              0 "llama-3.2-90b-vision-preview"
              {| status := 401; body := BodyFailed "network error" |}
              "network error" Hrun) as [_ Hgo].
  - reflexivity.
  - reflexivity.
  - destruct Hgo as [Hnext _]; [vm_compute; reflexivity|].
    apply (Hnext "meta-llama/llama-4-scout-17b-16e-instruct"). reflexivity.
Defined.

(** ** More on the entry point *)

Lemma attempts_app (tr1 tr2 : list event) :
  attempts (tr1 ++ tr2) = attempts tr1 ++ attempts tr2.
Proof. apply omap_app. Qed.

Lemma alerts_app (tr1 tr2 : list event) :
  alerts (tr1 ++ tr2) = alerts tr1 ++ alerts tr2.
Proof. apply omap_app. Qed.

Lemma attempts_alerts (texts : list string) : attempts (EvAlert <$> texts) = [].
Proof. by induction texts. Qed.

Lemma alerts_alerts (texts : list string) : alerts (EvAlert <$> texts) = texts.
Proof.
  induction texts as [|t texts IH]; [done|].
  change (alerts (EvAlert <$> t :: texts)) with (t :: alerts (EvAlert <$> texts)).
  by rewrite IH.
Qed.

Lemma alerts_sent (p : payload) log : alerts (sent p log) = [].
Proof. by induction log. Qed.

(** The requests and the alerts of a trace that extends [tr0] with the
    attempts [log] and then the alerts [texts]. *)
Lemma new_attempts_shape (p : payload) tr0 log texts :
  new_attempts tr0 (tr0 ++ sent p log ++ (EvAlert <$> texts)) = log.
Proof.
  unfold new_attempts.
  by rewrite drop_app_length, attempts_app, attempts_sent, attempts_alerts, app_nil_r.
Qed.

Lemma new_alerts_shape (p : payload) tr0 log texts :
  new_alerts tr0 (tr0 ++ sent p log ++ (EvAlert <$> texts)) = texts.
Proof.
  unfold new_alerts.
  by rewrite drop_app_length, alerts_app, alerts_sent, alerts_alerts.
Qed.

Lemma get_Throw v k e : get v k = Throw e → ∃ text, e = ThrownError text.
Proof. unfold get, read_error. destruct (nullish v); intros; simplify_eq; eauto. Qed.

Lemma get_index_Throw v i e : get_index v i = Throw e → ∃ text, e = ThrownError text.
Proof. unfold get_index, read_error. destruct (nullish v); intros; simplify_eq; eauto. Qed.

Lemma set_Throw v k x e : set v k x = Throw e → ∃ text, e = ThrownError text.
Proof. destruct v; simpl; intros; simplify_eq; eauto. Qed.

Lemma completion_bind_Throw {A C} (c : completion A) (f : A → completion C) e :
  c ≫= f = Throw e → c = Throw e ∨ ∃ a, c = Normal a ∧ f a = Throw e.
Proof. destruct c as [a|e']; simpl; [eauto | intros [= ->]; eauto]. Qed.

(** Reading the reply throws error objects only. *)
Lemma parse_reply_Throw (B : Host) data e :
  parse_reply B data = Throw e → ∃ text, e = ThrownError text.
Proof.
  unfold parse_reply. intros H.
  apply completion_bind_Throw in H as [H|(choices & _ & H)]; [by eapply get_Throw|].
  apply completion_bind_Throw in H as [H|(first & _ & H)]; [by eapply get_index_Throw|].
  apply completion_bind_Throw in H as [H|(msg & _ & H)]; [by eapply get_Throw|].
  apply completion_bind_Throw in H as [H|(content & _ & H)]; [by eapply get_Throw|].
  destruct (JSON_parse B content); simpl in H; simplify_eq; eauto.
Qed.

Lemma backfill_Throw k filler result e :
  Part001.backfill k filler result = Throw e → ∃ text, e = ThrownError text.
Proof.
  unfold Part001.backfill. intros H.
  apply completion_bind_Throw in H as [H|(current & _ & H)]; [by eapply get_Throw|].
  destruct (negb _); [by eapply set_Throw | done].
Qed.

(** The normalisation throws error objects only, and shows nothing before
    it throws. *)
Lemma normalize_Throw (v : variant) result tr e tr' :
  normalize v result tr = (Throw e, tr') → tr' = tr ∧ ∃ text, e = ThrownError text.
Proof.
  destruct v; simpl.
  - unfold Gemini.normalize, mbind, M_bind, lift.
    destruct (get result "isSkin") as [isSkin|e0] eqn:Hget.
    + destruct (is_false isSkin); [done|]. unfold mret, M_ret. done.
    + intros [= <- <-]. split; [done|]. by eapply get_Throw.
  - intros [= H <-]. split; [done|]. unfold Part000.normalize in H.
    apply completion_bind_Throw in H as [H|(isSkin & _ & H)]; [by eapply get_Throw|].
    destruct (is_false isSkin); [|done].
    apply completion_bind_Throw in H as [H|(reasons & _ & H)]; [by eapply get_Throw|].
    apply completion_bind_Throw in H as [H|(missing & _ & H)].
    { destruct (negb _); [done|].
      apply completion_bind_Throw in H as [H|(len & _ & H)]; [by eapply get_Throw | done]. }
    apply completion_bind_Throw in H as [H|(result' & _ & H)].
    { destruct missing; [by eapply set_Throw | done]. }
    apply completion_bind_Throw in H as [H|(? & _ & H)]; [by eapply get_Throw|].
    apply completion_bind_Throw in H as [H|(? & _ & H)]; [by eapply get_Throw|].
    apply completion_bind_Throw in H as [H|(? & _ & H)]; [by eapply get_Throw|].
    apply completion_bind_Throw in H as [H|(? & _ & H)]; [by eapply get_Throw|].
    done.
  - intros [= H <-]. split; [done|]. unfold Part001.normalize in H.
    apply completion_bind_Throw in H as [H|(? & _ & H)]; [by eapply backfill_Throw|].
    apply completion_bind_Throw in H as [H|(? & _ & H)]; [by eapply backfill_Throw|].
    apply completion_bind_Throw in H as [H|(? & _ & H)]; [by eapply backfill_Throw|].
    apply completion_bind_Throw in H as [H|(? & _ & H)]; [by eapply backfill_Throw|].
    apply completion_bind_Throw in H as [H|(isSkin & _ & H)]; [by eapply get_Throw|].
    by destruct (is_false isSkin).
Qed.

(** The alerts of a normalisation that returned: [geminiService.ts] warns
    when the reply says [isSkin: false], the other variants never alert. *)
Lemma normalize_Normal_trace (v : variant) result tr r tr' :
  normalize v result tr = (Normal r, tr') →
  tr' = tr ++ (EvAlert <$>
    match v with
    | GeminiService =>
        if is_false (prop result "isSkin")
        then ["Analysis Warning: No human skin detected in this image."] else []
    | _ => []
    end).
Proof.
  destruct v; simpl.
  - unfold Gemini.normalize. intros H.
    apply M_bind_Normal in H as (isSkin & tr1 & Hget & H).
    apply lift_Normal in Hget as [Hget ->]. apply get_Normal in Hget as [_ ->].
    destruct (is_false (prop result "isSkin")).
    + by inversion H.
    + inversion H. by rewrite app_nil_r.
  - intros [= _ <-]. by rewrite app_nil_r.
  - intros [= _ <-]. by rewrite app_nil_r.
Qed.

(** The normalisation leaves the verdict of the model on [isSkin] alone. *)
Lemma normalize_isSkin (v : variant) result tr r tr' :
  normalize v result tr = (Normal r, tr') → prop r "isSkin" = prop result "isSkin".
Proof.
  destruct v; simpl; intros H.
  - unfold Gemini.normalize in H.
    apply M_bind_Normal in H as (isSkin & tr1 & Hget & H).
    apply lift_Normal in Hget as [Hget ->]. apply get_Normal in Hget as [_ ->].
    destruct (is_false (prop result "isSkin")) eqn:Hskin; [|by inversion H].
    inversion H; subst; clear H.
    assert (Hs : prop result "isSkin" = VBool false).
    { destruct (prop result "isSkin") as [| |[|]| | | |]; done. }
    pose proof (spread_prop result "isSkin" _ Hs ltac:(done) ltac:(done)) as Hsp.
    simpl. rewrite !lookup_insert_ne by done. by rewrite Hsp, Hs.
  - apply lift_Normal in H as [H _]. unfold Part000.normalize in H.
    unget H. destruct (is_false (prop result "isSkin")) eqn:Hskin; [|by inversion H].
    unget H. unbind H as missing Hmiss. unbind H as result' Hset.
    do 4 (unget H). inversion H; subst; clear H.
    assert (Hs : prop result "isSkin" = VBool false).
    { destruct (prop result "isSkin") as [| |[|]| | | |]; done. }
    assert (Hs' : prop result' "isSkin" = VBool false).
    { destruct missing; [|by inversion Hset; subst].
      by rewrite (set_prop_ne _ _ _ _ "isSkin" Hset). }
    pose proof (spread_prop result' "isSkin" _ Hs' ltac:(done) ltac:(done)) as Hsp.
    simpl. rewrite !lookup_insert_ne by done. by rewrite Hsp, Hs.
  - apply lift_Normal in H as [H _].
    apply part001_normalize_inv in H
      as (filled & _ & Hsame & [[_ ->]|(Hf & Hr & _)]); congruence.
Qed.

Lemma rescue_error (v : variant) text tr :
  rescue v (ThrownError text) tr =
  (Normal (catch_record v text),
   tr ++ (EvAlert <$> match v with
                      | Part000Service => []
                      | _ => ["Analysis Failed: " +:+ text]
                      end)).
Proof. destruct v; try done. unfold rescue, Part000.rescue. simpl. by rewrite app_nil_r. Qed.

Lemma rescue_null (v : variant) tr :
  rescue v ThrownNull tr = (Throw (read_error VNull "message"), tr).
Proof. by destruct v. Qed.

(** What the [try] block of [analyzeSkinImage] does, step by step: the
    cascade runs; if it returns, the reply is read and parsed; if that
    works, the result is normalised. *)
Lemma analysis_inv (v : variant) (B : Host) c tr0 ares tr1 :
  analysis v B c tr0 = (ares, tr1) →
  ∃ log cres,
    run B (credential_message v) (VISION_MODELS v) ThrownNull log cres ∧
    tryGroqAnalysis v B {| image_url := c |} tr0 =
      (cres, tr0 ++ sent {| image_url := c |} log) ∧
    match cres with
    | Throw e => ares = Throw e ∧ tr1 = tr0 ++ sent {| image_url := c |} log
    | Normal data =>
        match parse_reply B data with
        | Throw e => ares = Throw e ∧ tr1 = tr0 ++ sent {| image_url := c |} log
        | Normal result =>
            normalize v result (tr0 ++ sent {| image_url := c |} log) = (ares, tr1)
        end
    end.
Proof.
  intros Han.
  destruct (tryGroqAnalysis v B {| image_url := c |} tr0) as [cres trc] eqn:Hc.
  pose proof Hc as Hrun. apply tryGroqAnalysis_run in Hrun as [Htr Hrun].
  exists (new_attempts tr0 trc), cres. split; [done|]. rewrite <- Htr. split; [done|].
  destruct v; simpl in *;
    unfold Gemini.analysis, Part000.analysis, Part001.analysis, mbind, M_bind in Han;
    rewrite Hc in Han; destruct cres as [data|e];
    try (by inversion Han);
    unfold lift at 1 in Han; destruct (parse_reply B data) as [result|e];
    try (by inversion Han); done.
Qed.

Lemma rescue_rescued (v : variant) e tr res tr' :
  rescue v e tr = (res, tr') →
  ∃ texts, tr' = tr ++ (EvAlert <$> texts) ∧ rescued v e res texts.
Proof.
  destruct e as [|text].
  - rewrite rescue_null. intros [= <- <-]. exists []. by rewrite app_nil_r.
  - rewrite rescue_error. intros [= <- <-]. by exists (failure_alerts v text).
Qed.

(** With a credential: the cascade runs on the compressed image, and the
    call ends on one of the four paths. *)
Lemma analyzeSkinImage_with_key (v : variant) (B : Host) img tr0 res tr :
  truthy (GROQ_API_KEY B) = true →
  analyzeSkinImage v B img tr0 = (res, tr) →
  ∃ log cres texts,
    run B (credential_message v) (VISION_MODELS v) ThrownNull log cres ∧
    tryGroqAnalysis v B (payload_for B img) tr0 =
      (cres, tr0 ++ sent (payload_for B img) log) ∧
    tr = tr0 ++ sent (payload_for B img) log ++ (EvAlert <$> texts) ∧
    path v B (tr0 ++ sent (payload_for B img) log) cres res texts.
Proof.
  intros Hkey. rewrite analyzeSkinImage_unfold, Hkey. simpl. unfold try_catch.
  destruct (analysis v B _ tr0) as [ares tr1] eqn:Han.
  apply analysis_inv in Han as (log & cres & Hrun & Hc & Hpath).
  fold (payload_for B img) in *.
  set (trc := tr0 ++ sent (payload_for B img) log) in *.
  intros Hres. exists log, cres.
  destruct cres as [data|e].
  - destruct (parse_reply B data) as [result|e] eqn:Hparse.
    + destruct ares as [r|e].
      * inversion Hres; subst.
        pose proof (normalize_Normal_trace _ _ _ _ _ Hpath) as Htr.
        exists (warning_alerts v result). repeat split; try done.
        { rewrite Htr. unfold warning_alerts. by rewrite app_assoc. }
        eapply path_normalized; try done. unfold warning_alerts.
        fold trc. by rewrite <- Htr.
      * pose proof (normalize_Throw _ _ _ _ _ Hpath) as [-> [text ->]].
        apply rescue_rescued in Hres as (texts & -> & Hresc).
        exists texts. repeat split; try done; [by rewrite app_assoc|].
        by eapply path_unusable.
    + destruct Hpath as [-> ->].
      pose proof (parse_reply_Throw _ _ _ Hparse) as [text ->].
      apply rescue_rescued in Hres as (texts & -> & Hresc).
      exists texts. repeat split; try done; [by rewrite app_assoc|].
      by eapply path_unreadable.
  - destruct Hpath as [-> ->].
    apply rescue_rescued in Hres as (texts & -> & Hresc).
    exists texts. repeat split; try done; [by rewrite app_assoc|].
    by eapply path_cascade_failed.
Qed.

Lemma analyzeSkinImage_without_key (v : variant) (B : Host) img tr0 :
  truthy (GROQ_API_KEY B) = false →
  analyzeSkinImage v B img tr0 =
  (Normal missing_key_record, tr0 ++ [EvAlert "CRITICAL: Groq API Key is missing."]).
Proof. intros Hkey. by rewrite analyzeSkinImage_unfold, Hkey. Qed.

Lemma rescued_alerts (v : variant) e res texts : rescued v e res texts → (length texts ≤ 1)%nat.
Proof. destruct e; intros [_ ->]; [simpl; lia|]. destruct v; simpl; lia. Qed.

Lemma path_alerts (v : variant) (B : Host) trc cres res texts :
  path v B trc cres res texts → (length texts ≤ 1)%nat.
Proof.
  intros [e _ Hr|data text _ _ Hr|data result text _ _ _ Hr|data result r _ _ _ _ ->];
    try by eapply rescued_alerts.
  destruct v; simpl; try lia. destruct (is_false _); simpl; lia.
Qed.

Lemma VISION_MODELS_length (v : variant) : length (VISION_MODELS v) = 3.
Proof. by destruct v. Qed.


Lemma cascade_attempted (v : variant) (B : Host) cm lastError log res :
  run B cm (VISION_MODELS v) lastError log res → log ≠ [].
Proof.
  intros Hrun ->. destruct v; apply run_head in Hrun as (a & log' & Heq); done.
Qed.

(** X6: [analyzeSkinImage] sends no request without a credential and at
    least one with it, never more than the three candidates, in list order
    and each with the compressed image as its payload; it shows at most one
    alert, after the requests. *)
Theorem analyzeSkinImage_requests (v : variant) (B : Host) img tr0 res tr :
  analyzeSkinImage v B img tr0 = (res, tr) →
  let log := new_attempts tr0 tr in
  (∃ texts, tr = tr0 ++ sent (payload_for B img) log ++ (EvAlert <$> texts) ∧
            (length texts ≤ 1)%nat) ∧
  log.*1 `prefix_of` VISION_MODELS v ∧
  (log = [] ↔ truthy (GROQ_API_KEY B) = false) ∧
  (length log ≤ 3)%nat.
Proof.
  intros Hrun log. destruct (truthy (GROQ_API_KEY B)) eqn:Hkey.
  - apply analyzeSkinImage_with_key in Hrun
      as (log' & cres & texts & Hlog & _ & Htr & Hpath); [|done].
    assert (Hl : log = log') by (unfold log; rewrite Htr; apply new_attempts_shape).
    rewrite Hl. pose proof (run_prefix _ _ _ _ _ _ Hlog) as Hpre.
    repeat split.
    + exists texts. split; [done | by eapply path_alerts].
    + done.
    + intros Hnil. by apply cascade_attempted in Hlog.
    + done.
    + apply prefix_length in Hpre. rewrite length_fmap, VISION_MODELS_length in Hpre. done.
  - rewrite analyzeSkinImage_without_key in Hrun by done. inversion Hrun; subst.
    assert (Hl : log = []).
    { unfold log. apply (new_attempts_shape (payload_for B img) tr0 []
                           ["CRITICAL: Groq API Key is missing."]). }
    rewrite Hl. repeat split; try done.
    + by exists ["CRITICAL: Groq API Key is missing."].
    + apply prefix_nil.
    + simpl. lia.
Qed.

Lemma analyzeSkinImage_requests_witness :
  let B := Script.second_answers Script.bare_reply in
  let log := [("llama-3.2-90b-vision-preview", Script.http 404 "model not found");
              ("meta-llama/llama-4-scout-17b-16e-instruct", Script.replied Script.bare_reply)] in
  let tr := sent (payload_for B Script.photo) log in
  (∃ texts, tr = [] ++ sent (payload_for B Script.photo) (new_attempts [] tr)
                    ++ (EvAlert <$> texts) ∧ (length texts ≤ 1)%nat) ∧
  (new_attempts [] tr).*1 `prefix_of` VISION_MODELS GeminiService ∧
  (new_attempts [] tr = [] ↔ truthy (GROQ_API_KEY B) = false) ∧
  (length (new_attempts [] tr) ≤ 3)%nat.
Proof.
  intros B log tr.
  apply (analyzeSkinImage_requests GeminiService B Script.photo []
           (Normal (Script.to_value Script.bare_reply)) tr).
  vm_compute; reflexivity.
Defined.

(** X7: the only way [analyzeSkinImage] rejects is the one of C1: it has a
    credential, contacted every candidate and got 400 or 404, with a body
    that was read, from each.  The rejection is then the [TypeError] of reading [message] of [null], and no
    alert has been shown. *)
Theorem analyzeSkinImage_rejection_iff (v : variant) (B : Host) img tr0 res tr :
  analyzeSkinImage v B img tr0 = (res, tr) →
  let log := new_attempts tr0 tr in
  ((∃ e, res = Throw e) ↔
   truthy (GROQ_API_KEY B) = true ∧ length log = length (VISION_MODELS v) ∧
   ∀ i m answer, log !! i = Some (m, answer) → unavailable answer) ∧
  (∀ e, res = Throw e → e = read_error VNull "message" ∧ new_alerts tr0 tr = []).
Proof.
  intros Hrun log. destruct (truthy (GROQ_API_KEY B)) eqn:Hkey.
  - apply analyzeSkinImage_with_key in Hrun
      as (log' & cres & texts & Hlog & _ & Htr & Hpath); [|done].
    assert (Hl : log = log') by (unfold log; rewrite Htr; apply new_attempts_shape).
    assert (Ha : new_alerts tr0 tr = texts) by (rewrite Htr; apply new_alerts_shape).
    rewrite Hl, Ha. clear Hl Ha log.
    assert (Hthrow : ∀ e, res = Throw e →
              cres = Throw ThrownNull ∧ e = read_error VNull "message" ∧ texts = []).
    { intros e ->.
      destruct Hpath as [e0 -> Hr|data text _ _ Hr|data result text _ _ _ Hr|data result r _ _ _ Hr _];
        try (by destruct Hr); [|done].
      destruct e0 as [|text]; destruct Hr as [Hr ->]; by inversion Hr. }
    split; [split|].
    + intros [e He]. destruct (Hthrow e He) as (-> & _ & _).
      apply run_null_inv in Hlog as (_ & Hlen & Hall). done.
    + intros (_ & Hlen & Hall).
      assert (cres = Throw ThrownNull) as -> by by eapply run_all_unavailable.
      destruct Hpath as [e0 [= <-] Hr|data text Hc|data result text Hc|data result r Hc];
        try done.
      destruct Hr as [-> _]. eauto.
    + intros e He. by destruct (Hthrow e He) as (_ & -> & ->).
  - rewrite analyzeSkinImage_without_key in Hrun by done. inversion Hrun; subst.
    split; [split|]; [by intros [e He] | by intros [? _] | done].
Qed.

Lemma analyzeSkinImage_rejection_iff_witness :
  let tr := sent (payload_for Script.all_unavailable Script.photo)
                 ((λ m, (m, Script.http 404 "model not found")) <$> VISION_MODELS Part000Service) in
  ((∃ e, Throw (read_error VNull "message") = @Throw value e) ↔
   truthy (GROQ_API_KEY Script.all_unavailable) = true ∧
   length (new_attempts [] tr) = length (VISION_MODELS Part000Service) ∧
   ∀ i m answer, new_attempts [] tr !! i = Some (m, answer) → unavailable answer) ∧
  (∀ e, Throw (read_error VNull "message") = @Throw value e →
        e = read_error VNull "message" ∧ new_alerts [] tr = []).
Proof.
  intros tr.
  apply (analyzeSkinImage_rejection_iff Part000Service Script.all_unavailable Script.photo []
           (Throw (read_error VNull "message")) tr).
  vm_compute; reflexivity.
Defined.

Lemma catch_record_flags (v : variant) text :
  prop (catch_record v text) "isSkin" = VBool false ∧
  prop (catch_record v text) "isHealthy" = VBool false ∧
  Types.is_SkinAnalysis (catch_record v text) =
    match v with Part000Service => true | _ => false end.
Proof. destruct v; repeat split; vm_compute; reflexivity. Qed.

(** The [try] block, from what the cascade and the reading of the reply
    did. *)
Lemma analysis_throws (v : variant) (B : Host) c tr0 cres trc e :
  tryGroqAnalysis v B {| image_url := c |} tr0 = (cres, trc) →
  (cres = Throw e ∨ ∃ data, cres = Normal data ∧ parse_reply B data = Throw e) →
  analysis v B c tr0 = (Throw e, trc).
Proof.
  intros Hc Hfail.
  destruct v; simpl in *;
    unfold Gemini.analysis, Part000.analysis, Part001.analysis, mbind, M_bind;
    rewrite Hc; destruct Hfail as [->|(data & -> & Hparse)]; try done;
    unfold lift at 1; by rewrite Hparse.
Qed.

(** X8: an error with a message raised by the cascade, or by reading
    [choices[0].message.content] off its data and parsing it, never reaches
    the caller: [analyzeSkinImage] resolves to the record of its [catch]
    clause built from that message, flagged [isSkin: false] and
    [isHealthy: false], after the alert "Analysis Failed: ..." (none in
    [part_000]).  The record of [part_000] has the declared [SkinAnalysis]
    shape, the record of the other two variants has not. *)
Theorem analyzeSkinImage_converts_errors (v : variant) (B : Host) img tr0 cres trc text :
  truthy (GROQ_API_KEY B) = true →
  tryGroqAnalysis v B (payload_for B img) tr0 = (cres, trc) →
  (cres = Throw (ThrownError text) ∨
   ∃ data, cres = Normal data ∧ parse_reply B data = Throw (ThrownError text)) →
  analyzeSkinImage v B img tr0 =
    (Normal (catch_record v text), trc ++ (EvAlert <$> failure_alerts v text)) ∧
  prop (catch_record v text) "isSkin" = VBool false ∧
  prop (catch_record v text) "isHealthy" = VBool false ∧
  Types.is_SkinAnalysis (catch_record v text) =
    match v with Part000Service => true | _ => false end.
Proof.
  intros Hkey Hc Hfail. split; [|apply catch_record_flags].
  rewrite analyzeSkinImage_unfold, Hkey. simpl. unfold try_catch.
  rewrite (analysis_throws v B _ tr0 cres trc (ThrownError text) Hc Hfail).
  apply rescue_error.
Qed.

Lemma analyzeSkinImage_converts_errors_witness :
  let B := Cases.no_choices in
  let text := "Cannot read properties of undefined (reading '0')" in
  let trc := sent (payload_for B Script.photo)
                  [("llama-3.2-90b-vision-preview", Script.http 200 "{}")] in
  analyzeSkinImage GeminiService B Script.photo [] =
    (Normal (analysis_error_record text), trc ++ [EvAlert ("Analysis Failed: " +:+ text)]) ∧
  prop (analysis_error_record text) "isSkin" = VBool false ∧
  prop (analysis_error_record text) "isHealthy" = VBool false ∧
  Types.is_SkinAnalysis (analysis_error_record text) = false.
Proof.
  intros B text trc.
  apply (analyzeSkinImage_converts_errors GeminiService B Script.photo []
           (Normal (VObj ∅)) trc text).
  - reflexivity.
  - vm_compute; reflexivity.
  - right. exists (VObj ∅). split; [reflexivity | vm_compute; reflexivity].
Defined.

(** X9: when the first candidate answers 401 or 403 and the body of that
    answer is read, [analyzeSkinImage] makes that one request only and
    resolves to the record of its [catch] clause carrying the credential
    message. *)
Theorem analyzeSkinImage_credential_rejected (v : variant) (B : Host) img tr0 m r text :
  truthy (GROQ_API_KEY B) = true →
  head (VISION_MODELS v) = Some m →
  fetch B (length tr0) {| rq_model := m; rq_payload := payload_for B img |} = Answered r →
  (status r = 401 ∨ status r = 403)%Z →
  body r = BodyText text →
  analyzeSkinImage v B img tr0 =
    (Normal (catch_record v (credential_message v)),
     tr0 ++ [EvFetch {| rq_model := m; rq_payload := payload_for B img |} (Answered r)]
         ++ (EvAlert <$> failure_alerts v (credential_message v))).
Proof.
  intros Hkey Hm Hfetch Hst Hbody.
  assert (Hc : tryGroqAnalysis v B (payload_for B img) tr0 =
               (Throw (ThrownError (credential_message v)),
                tr0 ++ [EvFetch {| rq_model := m; rq_payload := payload_for B img |}
                          (Answered r)])).
  { rewrite tryGroqAnalysis_for_of.
    destruct (VISION_MODELS v) as [|m0 rest]; [done|]. inversion Hm; subst m0.
    simpl. rewrite try_block_eq. simpl. rewrite Hfetch. simpl.
    rewrite (check_response_credential B _ r text Hst Hbody), catch_block_error.
    by rewrite credential_message_names_key. }
  rewrite analyzeSkinImage_unfold, Hkey. simpl. unfold try_catch.
  rewrite (analysis_throws v B _ tr0 _ _ (ThrownError (credential_message v)) Hc)
    by by left.
  rewrite rescue_error. by rewrite <- app_assoc.
Qed.

Lemma analyzeSkinImage_credential_rejected_witness :
  let B := Script.unauthorized in
  analyzeSkinImage Part001Service B Script.photo [] =
    (Normal (analysis_error_record "CRITICAL: API Key Restricted."),
     [EvFetch {| rq_model := "meta-llama/llama-4-scout-17b-16e-instruct";
                 rq_payload := payload_for B Script.photo |}
              (Script.http 401 "invalid key");
      EvAlert "Analysis Failed: CRITICAL: API Key Restricted."]).
Proof.
  intros B.
  apply (analyzeSkinImage_credential_rejected Part001Service B Script.photo []
           "meta-llama/llama-4-scout-17b-16e-instruct"
           {| status := 401; body := BodyText "invalid key" |} "invalid key");
    [reflexivity | reflexivity | reflexivity | left; reflexivity | reflexivity].
Defined.

Lemma fallback_reasons (v : variant) r :
  fallback v r → nonempty_seq (prop r "reasons") = false.
Proof. intros [->|[msg ->]]; [done|]. by destruct v. Qed.

(** X10: which calls end with an alert.  [geminiService.ts] alerts exactly
    when the record it returns has [isSkin === false]; [part_000] alerts
    exactly when the credential is missing; [part_001] alerts exactly when
    it returns a fallback record (missing credential or caught error), not
    when the model says the image is not skin.  No call alerts twice. *)
Theorem analyzeSkinImage_alerts (v : variant) (B : Host) img tr0 r tr :
  analyzeSkinImage v B img tr0 = (Normal r, tr) →
  (length (new_alerts tr0 tr) ≤ 1)%nat ∧
  (new_alerts tr0 tr ≠ [] ↔
   match v with
   | GeminiService => prop r "isSkin" = VBool false
   | Part000Service => truthy (GROQ_API_KEY B) = false
   | Part001Service => fallback Part001Service r
   end).
Proof.
  intros Hrun. destruct (truthy (GROQ_API_KEY B)) eqn:Hkey.
  - apply analyzeSkinImage_with_key in Hrun
      as (log & cres & texts & Hlog & _ & Htr & Hpath); [|done].
    assert (Ha : new_alerts tr0 tr = texts) by (rewrite Htr; apply new_alerts_shape).
    rewrite Ha. split; [by eapply path_alerts|].
    assert (Hcaught : ∀ e, rescued v e (Normal r) texts →
              ∃ text, r = catch_record v text ∧ texts = failure_alerts v text).
    { intros [|text] [Hr ->]; [done|]. inversion Hr. eauto. }
    destruct Hpath as [e _ Hr|data text _ _ Hr|data result text _ _ _ Hr
                      |data result r' _ _ Hnorm [= <-] ->].
    1-3: apply Hcaught in Hr as (text' & -> & ->);
         destruct v; simpl; split; try done; intros _; right; by exists text'.
    pose proof (normalize_isSkin _ _ _ _ _ Hnorm) as Hskin.
    destruct v; simpl in *.
    + rewrite Hskin. destruct (prop result "isSkin") as [| |[|]| | | |]; simpl; split; done.
    + split; done.
    + split; [done|]. intros Hfb. exfalso.
      apply lift_Normal in Hnorm as [Hnorm _].
      apply part001_normalize_inv in Hnorm
        as (filled & _ & _ & [[Hns ->]|(_ & _ & _ & _ & Hre & _)]).
      * apply fallback_not_skin in Hfb. by rewrite Hfb in Hns.
      * apply fallback_reasons in Hfb. by rewrite Hre in Hfb.
  - rewrite analyzeSkinImage_without_key in Hrun by done. inversion Hrun; subst.
    assert (Ha : new_alerts tr0 (tr0 ++ [EvAlert "CRITICAL: Groq API Key is missing."])
                 = ["CRITICAL: Groq API Key is missing."]).
    { apply (new_alerts_shape (payload_for B img) tr0 []
               ["CRITICAL: Groq API Key is missing."]). }
    rewrite Ha. split; [done|]. destruct v; simpl; split; try done.
    intros _. by left.
Qed.

Lemma analyzeSkinImage_alerts_witness :
  let B := Script.answering (Script.full_reply false) in
  let tr := sent (payload_for B Script.photo)
                 [("llama-3.2-90b-vision-preview", Script.replied (Script.full_reply false))]
            ++ [EvAlert "Analysis Warning: No human skin detected in this image."] in
  let r := Script.returned (analyzeSkinImage GeminiService B Script.photo []) in
  (length (new_alerts [] tr) ≤ 1)%nat ∧
  (new_alerts [] tr ≠ [] ↔ prop r "isSkin" = VBool false).
Proof.
  intros B tr r.
  apply (analyzeSkinImage_alerts GeminiService B Script.photo [] r tr).
  vm_compute; reflexivity.
Defined.

Lemma or_else_truthy a b : truthy b = true → truthy (or_else a b) = true.
Proof. unfold or_else. by destruct (truthy a) eqn:Ha. Qed.

Lemma or_else_idem a b : truthy b = true → or_else (or_else a b) b = or_else a b.
Proof.
  intros Hb. unfold or_else at 1. by rewrite (or_else_truthy a b Hb).
Qed.

Lemma is_false_true v : is_false v = true → v = VBool false.
Proof. by destruct v as [| |[|]| | | |]. Qed.

(** The record [part_000] builds for a reply that says [isSkin: false]. *)
Lemma part000_rejection result r :
  Part000.normalize result = Normal r →
  is_false (prop result "isSkin") = true →
  ∃ result',
    prop result' "isSkin" = VBool false ∧
    truthy (prop result' "reasons") = true ∧
    is_zero (prop (prop result' "reasons") "length") = false ∧
    r = VObj (<["prevention" := arr []]>
             (<["precautions" := or_else (prop result' "precautions") (arr [])]>
             (<["medicines" := arr []]>
             (<["treatments" := arr []]>
             (<["symptoms" := or_else (prop result' "symptoms") (arr [])]>
             (<["description" := or_else (prop result' "description")
                                   (VStr "The analysis could not identify human skin.")]>
             (<["diseaseName" := or_else (prop result' "diseaseName") (VStr "No Skin Detected")]>
             (<["isHealthy" := VBool false]> (spread result'))))))))).
Proof.
  unfold Part000.normalize. intros H Hskin. unget H. rewrite Hskin in H.
  unget H. unbind H as missing Hmiss. unbind H as result' Hset.
  do 4 (unget H). inversion H; subst; clear H.
  exists result'. split; [|split; [|split]]; [| | |done].
  - apply is_false_true in Hskin.
    destruct missing; [|by inversion Hset; subst].
    by rewrite (set_prop_ne _ _ _ _ "isSkin" Hset).
  - destruct missing; [by rewrite (set_prop_eq _ _ _ _ Hset)|].
    inversion Hset; subst.
    destruct (truthy (prop result' "reasons")); [done|]. by inversion Hmiss.
  - destruct missing; [by rewrite (set_prop_eq _ _ _ _ Hset)|].
    inversion Hset; subst.
    destruct (truthy (prop result' "reasons")) eqn:Htr; simpl in Hmiss; [|by inversion Hmiss].
    unfold get in Hmiss.
    destruct (nullish (prop result' "reasons")); simpl in Hmiss; [done|].
    congruence.
Qed.

(** X11: a record [part_000] returns with [isSkin === false], other than
    the missing-credential record, carries no medical content and no hole:
    its treatments, medicines and prevention are empty arrays, and its
    disease name, description, symptoms, reasons and precautions are all
    there (truthy). *)
Theorem part000_rejection_record (B : Host) img tr0 r tr :
  analyzeSkinImage Part000Service B img tr0 = (Normal r, tr) →
  prop r "isSkin" = VBool false →
  r = missing_key_record ∨
  (prop r "treatments" = arr [] ∧ prop r "medicines" = arr [] ∧
   prop r "prevention" = arr [] ∧
   Forall (λ k, truthy (prop r k) = true)
          ["diseaseName"; "description"; "symptoms"; "reasons"; "precautions"]).
Proof.
  intros Hrun Hskin.
  apply analyzeSkinImage_Normal in Hrun as [[->|[msg ->]]|(result & tr1 & Hnorm)];
    [by left | right | right].
  - repeat split; try done. by repeat constructor.
  - apply lift_Normal in Hnorm as [Hnorm _].
    destruct (is_false (prop result "isSkin")) eqn:Hres.
    + apply part000_rejection in Hnorm as (result' & Hs & Htr & _ & ->); [|done].
      assert (Hsp : spread result' !! "reasons" = Some (prop result' "reasons")).
      { apply spread_prop; [done| |done]. intros Hu. by rewrite Hu in Htr. }
      split; [|split; [|split]].
      * simpl. rewrite !lookup_insert_ne by done. by rewrite lookup_insert_eq.
      * simpl. rewrite !lookup_insert_ne by done. by rewrite lookup_insert_eq.
      * simpl. by rewrite lookup_insert_eq.
      * repeat constructor; simpl; rewrite ?lookup_insert_ne by done;
          rewrite ?lookup_insert_eq; simpl; try by apply or_else_truthy.
        by rewrite Hsp.
    + unfold Part000.normalize, get in Hnorm.
      destruct (nullish result); [done|]. simpl in Hnorm. rewrite Hres in Hnorm.
      inversion Hnorm; subst. by rewrite Hskin in Hres.
Qed.

Lemma part000_rejection_record_witness :
  let r := Script.returned (analyzeSkinImage Part000Service
                              (Script.answering (Script.full_reply false)) Script.photo []) in
  r = missing_key_record ∨
  (prop r "treatments" = arr [] ∧ prop r "medicines" = arr [] ∧
   prop r "prevention" = arr [] ∧
   Forall (λ k, truthy (prop r k) = true)
          ["diseaseName"; "description"; "symptoms"; "reasons"; "precautions"]).
Proof.
  intros r.
  apply (part000_rejection_record (Script.answering (Script.full_reply false)) Script.photo []
           r (analyzeSkinImage Part000Service
                (Script.answering (Script.full_reply false)) Script.photo []).2);
    vm_compute; reflexivity.
Defined.

(** X12: the normalisation never flips the verdict of the model: when the
    reply parses, the record [analyzeSkinImage] returns has the [isSkin] of
    the reply, unless it is the record of the [catch] clause (the reply could
    not be normalised). *)
Theorem analyzeSkinImage_keeps_isSkin (v : variant) (B : Host) img tr0 data trc result r tr :
  truthy (GROQ_API_KEY B) = true →
  tryGroqAnalysis v B (payload_for B img) tr0 = (Normal data, trc) →
  parse_reply B data = Normal result →
  analyzeSkinImage v B img tr0 = (Normal r, tr) →
  prop r "isSkin" = prop result "isSkin" ∨ ∃ text, r = catch_record v text.
Proof.
  intros Hkey Hc Hparse Hrun.
  apply analyzeSkinImage_with_key in Hrun
    as (log & cres & texts & _ & Hc' & _ & Hpath); [|done].
  rewrite Hc in Hc'. inversion Hc'; subst cres.
  destruct Hpath as [e|data' text ? Hp Hr|data' result' text ? Hp ? Hr
                    |data' result' r' ? Hp Hnorm ? ?]; simplify_eq.
  - congruence.
  - destruct Hr as [Hr _]. inversion Hr. eauto.
  - left. rewrite Hparse in Hp. inversion Hp; subst. by eapply normalize_isSkin.
Qed.

Lemma analyzeSkinImage_keeps_isSkin_witness :
  let B := Script.answering (Script.full_reply false) in
  let r := Script.returned (analyzeSkinImage Part001Service B Script.photo []) in
  prop r "isSkin" = prop (Script.to_value (Script.full_reply false)) "isSkin" ∨
  ∃ text, r = catch_record Part001Service text.
Proof.
  intros B r.
  apply (analyzeSkinImage_keeps_isSkin Part001Service B Script.photo []
           (Script.to_value (Script.envelope (Script.full_reply false)))
           (sent (payload_for B Script.photo)
                 [("meta-llama/llama-4-scout-17b-16e-instruct",
                   Script.replied (Script.full_reply false))])
           (Script.to_value (Script.full_reply false)) r
           (analyzeSkinImage Part001Service B Script.photo []).2);
    vm_compute; reflexivity.
Defined.

(** Writing again the fields an object literal just wrote changes nothing. *)
Ltac absorb_inserts :=
  repeat match goal with
         | |- context [<[?k := ?x]> ?m] =>
             rewrite (insert_id m k x)
               by (rewrite ?lookup_insert_ne by done; apply lookup_insert_eq)
         end.

Lemma has_length_not_undefined v : has_length v = true → v ≠ VUndefined.
Proof. by intros Hl ->. Qed.

Lemma has_length_not_nullish result k :
  has_length (prop result k) = true → nullish result = false.
Proof. by destruct result. Qed.

(** What [part_001] returns: the backfilled reply, or the non-skin record
    built over it. *)
Lemma part001_normalize_form result r :
  Part001.normalize result = Normal r →
  ∃ filled,
    (∀ k, k ∈ backfilled_fields → has_length (prop filled k) = true) ∧
    r = if is_false (prop filled "isSkin")
        then VObj (<["precautions" := Part001.no_skin_precautions]>
                  (<["reasons" := Part001.no_skin_reasons]>
                  (<["symptoms" := Part001.no_skin_symptoms]>
                  (<["description" := VStr "The AI could not clearly identify human skin. This may be due to lighting, blur, or the object not being skin."]>
                  (<["diseaseName" := VStr "No Skin Detected"]>
                  (<["isHealthy" := VBool false]> (spread filled)))))))
        else filled.
Proof.
  unfold Part001.normalize. intros H.
  unbind H as r1 H1. unbind H as r2 H2. unbind H as r3 H3. unbind H as r4 H4.
  apply backfill_spec in H1 as (L1 & K1 & _); [|done..].
  apply backfill_spec in H2 as (L2 & K2 & _); [|done..].
  apply backfill_spec in H3 as (L3 & K3 & _); [|done..].
  apply backfill_spec in H4 as (L4 & K4 & _); [|done..].
  unget H. exists r4. split.
  - intros k Hk. unfold backfilled_fields in Hk.
    repeat (apply elem_of_cons in Hk as [->|Hk]).
    + by rewrite K4, K3, K2.
    + by rewrite K4, K3.
    + by rewrite K4.
    + done.
    + by apply elem_of_nil in Hk.
  - destruct (is_false (prop r4 "isSkin")); by inversion H.
Qed.

Lemma renormalize_gemini result tr r tr' :
  Gemini.normalize result tr = (Normal r, tr') →
  (Gemini.normalize r tr').1 = Normal r.
Proof.
  intros H. pose proof (normalize_isSkin GeminiService _ _ _ _ H) as Hsame.
  unfold Gemini.normalize in H.
  apply M_bind_Normal in H as (isSkin & tr1 & Hget & H).
  apply lift_Normal in Hget as [Hget ->]. apply get_Normal in Hget as [Hnn ->].
  destruct (is_false (prop result "isSkin")) eqn:Hskin.
  - inversion H; subst; clear H.
    unfold Gemini.normalize, mbind, M_bind, lift, get.
    cbn [nullish]. rewrite Hsame, Hskin. cbn [fst alert mret M_ret spread].
    do 2 f_equal. absorb_inserts. done.
  - inversion H; subst; clear H.
    unfold Gemini.normalize, mbind, M_bind, lift, get. by rewrite Hnn, Hskin.
Qed.

Lemma get_prop v k : nullish v = false → get v k = Normal (prop v k).
Proof. unfold get. by intros ->. Qed.

Lemma completion_bind_Normal_l {A C} (a : A) (f : A → completion C) :
  Normal a ≫= f = f a.
Proof. reflexivity. Qed.

Lemma truthy_not_nullish v : truthy v = true → nullish v = false.
Proof. by destruct v. Qed.

Lemma renormalize_part000 result r :
  Part000.normalize result = Normal r → Part000.normalize r = Normal r.
Proof.
  intros H. destruct (is_false (prop result "isSkin")) eqn:Hskin.
  - apply part000_rejection in H as (result' & Hs & Htr & Hz & ->); [|done].
    assert (Hsp : spread result' !! "reasons" = Some (prop result' "reasons")).
    { apply spread_prop; [done| |done]. intros Hu. by rewrite Hu in Htr. }
    pose proof (spread_prop result' "isSkin" _ Hs ltac:(done) ltac:(done)) as Hsk.
    match goal with |- Part000.normalize ?R0 = _ => remember R0 as R eqn:HR end.
    assert (Hnn : nullish R = false) by by rewrite HR.
    assert (PS : prop R "isSkin" = VBool false).
    { rewrite HR. simpl. rewrite !lookup_insert_ne by done. by rewrite Hsk. }
    assert (PR : prop R "reasons" = prop result' "reasons").
    { rewrite HR. simpl. rewrite !lookup_insert_ne by done. by rewrite Hsp. }
    assert (PN : prop R "diseaseName" =
                 or_else (prop result' "diseaseName") (VStr "No Skin Detected")).
    { rewrite HR. simpl. rewrite !lookup_insert_ne by done. by rewrite lookup_insert_eq. }
    assert (PD : prop R "description" =
                 or_else (prop result' "description")
                         (VStr "The analysis could not identify human skin.")).
    { rewrite HR. simpl. rewrite !lookup_insert_ne by done. by rewrite lookup_insert_eq. }
    assert (PY : prop R "symptoms" = or_else (prop result' "symptoms") (arr [])).
    { rewrite HR. simpl. rewrite !lookup_insert_ne by done. by rewrite lookup_insert_eq. }
    assert (PP : prop R "precautions" = or_else (prop result' "precautions") (arr [])).
    { rewrite HR. simpl. rewrite !lookup_insert_ne by done. by rewrite lookup_insert_eq. }
    unfold Part000.normalize.
    rewrite (get_prop R "isSkin" Hnn), completion_bind_Normal_l, PS. cbn [is_false].
    rewrite (get_prop R "reasons" Hnn), completion_bind_Normal_l, PR, Htr. cbn [negb].
    rewrite (get_prop _ "length" (truthy_not_nullish _ Htr)).
    rewrite !completion_bind_Normal_l, Hz, !completion_bind_Normal_l.
    rewrite (get_prop R "diseaseName" Hnn), completion_bind_Normal_l.
    rewrite (get_prop R "description" Hnn), completion_bind_Normal_l.
    rewrite (get_prop R "symptoms" Hnn), completion_bind_Normal_l.
    rewrite (get_prop R "precautions" Hnn), completion_bind_Normal_l.
    rewrite PN, PD, PY, PP, !or_else_idem by done.
    rewrite HR at 1. cbn [spread]. rewrite HR.
    do 2 f_equal. absorb_inserts. done.
  - pose proof H as H'. unfold Part000.normalize, get in H.
    destruct (nullish result); [done|]. simpl in H. rewrite Hskin in H.
    inversion H; subst. done.
Qed.

Lemma renormalize_part001 result r :
  Part001.normalize result = Normal r → Part001.normalize r = Normal r.
Proof.
  intros H. apply part001_normalize_form in H as (filled & Hfilled & ->).
  pose proof (Hfilled "prevention" ltac:(set_solver)) as Hprev.
  pose proof (has_length_not_nullish _ _ Hprev) as Hnn.
  destruct (is_false (prop filled "isSkin")) eqn:Hskin.
  - apply is_false_true in Hskin.
    pose proof (spread_prop filled "isSkin" _ Hskin ltac:(done) ltac:(done)) as Hsk.
    pose proof (spread_prop filled "prevention" _ eq_refl
                  (has_length_not_undefined _ Hprev) ltac:(done)) as Hsp.
    unfold Part001.normalize.
    rewrite backfill_kept; [|done|].
    2:{ cbn [prop]. rewrite !lookup_insert_ne by done. by rewrite lookup_insert_eq. }
    cbn [mbind completion_bind].
    rewrite backfill_kept; [|done|].
    2:{ cbn [prop]. rewrite !lookup_insert_ne by done. by rewrite lookup_insert_eq. }
    cbn [mbind completion_bind].
    rewrite backfill_kept; [|done|].
    2:{ cbn [prop]. by rewrite lookup_insert_eq. }
    cbn [mbind completion_bind].
    rewrite backfill_kept; [|done|].
    2:{ cbn [prop]. rewrite !lookup_insert_ne by done. by rewrite Hsp. }
    cbn [mbind completion_bind]. unfold get. cbn [nullish prop mbind completion_bind].
    rewrite !lookup_insert_ne by done. rewrite Hsk. cbn [default is_false spread].
    do 2 f_equal. absorb_inserts. done.
  - unfold Part001.normalize.
    do 4 (rewrite backfill_kept by (try done; apply Hfilled; set_solver);
          cbn [mbind completion_bind]).
    unfold get. rewrite Hnn. cbn [mbind completion_bind]. by rewrite Hskin.
Qed.

(** X13: normalising twice is normalising once: a record that came out of
    the normalisation is returned unchanged when it is normalised again, in
    each of the three variants. *)
Theorem normalize_idempotent (v : variant) result tr r tr' :
  normalize v result tr = (Normal r, tr') →
  (normalize v r tr').1 = Normal r.
Proof.
  destruct v; simpl; intros H.
  - by eapply renormalize_gemini.
  - apply lift_Normal in H as [H _]. by rewrite (renormalize_part000 _ _ H).
  - apply lift_Normal in H as [H _]. by rewrite (renormalize_part001 _ _ H).
Qed.

Lemma normalize_idempotent_witness :
  let r := Script.returned (normalize Part001Service (Script.to_value Script.bare_reply) []) in
  (normalize Part001Service r []).1 = Normal r.
Proof.
  intros r.
  apply (normalize_idempotent Part001Service (Script.to_value Script.bare_reply) [] r []).
  vm_compute; reflexivity.
Defined.

(** ** More on the preprocessor *)

Lemma compressImage_canvas (B : Host) (base64Str : string) (maxWidth : Z) (quality : Q) w h :
  load_image B (image_source base64Str) = Some (w, h) →
  compressImage B base64Str maxWidth quality =
  toDataURL B {| canvas_width := (resize maxWidth w h).1;
                 canvas_height := (resize maxWidth w h).2;
                 drawn := image_source base64Str |} "image/jpeg" quality.
Proof.
  intros Hload. unfold compressImage, resize. rewrite Hload.
  by destruct (maxWidth <? w)%Z.
Qed.

Lemma resize_bounds (maxWidth w h : Z) :
  (0 ≤ maxWidth)%Z → (0 ≤ h)%Z →
  ((resize maxWidth w h).1 = Z.min w maxWidth ∧
   0 ≤ (resize maxWidth w h).2 ≤ h ∧
   ((resize maxWidth w h).2 = 0 ↔ h = 0 ∨ (maxWidth < w ∧ 2 * h * maxWidth < w)))%Z.
Proof.
  intros Hm Hh. unfold resize.
  destruct (maxWidth <? w)%Z eqn:Hlt; simpl.
  - apply Z.ltb_lt in Hlt.
    pose proof (Math_round_div_nearest (h * maxWidth) w ltac:(lia)) as Hn.
    unfold nearest in Hn. set (h' := Math_round_div (h * maxWidth) w) in *.
    split; [lia|]. split; [nia|]. split; [intros Hz; nia|].
    intros [->|[_ Hs]]; nia.
  - apply Z.ltb_ge in Hlt. split; [lia|]. split; [lia|]. split; [by left|].
    intros [?|[? _]]; lia.
Qed.

(** X14: [compressImage] never enlarges an image: the canvas it encodes is
    as wide as the narrower of the image and [maxWidth], and at most as high
    as the image.  The canvas has height zero (an empty picture) exactly
    when the image has, or when the image is more than [2 * height *
    maxWidth] wide, so that the scaled height rounds to zero. *)
Theorem compressImage_never_enlarges (B : Host) (base64Str : string) (maxWidth : Z)
    (quality : Q) (w h : Z) :
  load_image B (image_source base64Str) = Some (w, h) →
  (0 ≤ maxWidth)%Z → (0 ≤ h)%Z →
  ∃ c, compressImage B base64Str maxWidth quality = toDataURL B c "image/jpeg" quality ∧
       drawn c = image_source base64Str ∧
       (canvas_width c = Z.min w maxWidth ∧
        0 ≤ canvas_height c ≤ h ∧
        (canvas_height c = 0 ↔ h = 0 ∨ (maxWidth < w ∧ 2 * h * maxWidth < w)))%Z.
Proof.
  intros Hload Hm Hh. eexists. split; [by apply compressImage_canvas|].
  split; [done|]. by apply resize_bounds.
Qed.

Lemma compressImage_never_enlarges_witness :
  ∃ c, compressImage Cases.sliver Script.photo 1024 (7 # 10) =
         toDataURL Cases.sliver c "image/jpeg" (7 # 10) ∧
       drawn c = image_source Script.photo ∧
       (canvas_width c = Z.min 4096 1024 ∧
        0 ≤ canvas_height c ≤ 1 ∧
        (canvas_height c = 0 ↔ 1 = 0 ∨ (1024 < 4096 ∧ 2 * 1 * 1024 < 4096)))%Z.
Proof.
  apply (compressImage_never_enlarges Cases.sliver Script.photo 1024 (7 # 10) 4096 1);
    [reflexivity | lia | lia].
Defined.

Lemma resize_idempotent (maxWidth w h : Z) :
  resize maxWidth (resize maxWidth w h).1 (resize maxWidth w h).2 = resize maxWidth w h.
Proof.
  unfold resize. destruct (maxWidth <? w)%Z eqn:Hlt; simpl.
  - by rewrite Z.ltb_irrefl.
  - by rewrite Hlt.
Qed.

(** X15: compressing an image that was already compressed does not shrink
    it again: if the output of [compressImage] decodes to an image of the
    size of the canvas it was encoded from, a second pass with the same
    [maxWidth] draws it on a canvas of that same size. *)
Theorem compressImage_twice (B : Host) (base64Str : string) (maxWidth : Z) (quality : Q)
    (w h : Z) :
  load_image B (image_source base64Str) = Some (w, h) →
  let once := compressImage B base64Str maxWidth quality in
  load_image B (image_source once) = Some (resize maxWidth w h) →
  compressImage B once maxWidth quality =
  toDataURL B {| canvas_width := (resize maxWidth w h).1;
                 canvas_height := (resize maxWidth w h).2;
                 drawn := image_source once |} "image/jpeg" quality.
Proof.
  intros Hload once Hagain.
  rewrite (compressImage_canvas B once maxWidth quality
             (resize maxWidth w h).1 (resize maxWidth w h).2)
    by by destruct (resize maxWidth w h).
  by rewrite resize_idempotent.
Qed.

Lemma compressImage_twice_witness :
  let B := Script.host Script.key (Some (1024, 501)%Z) [] [] in
  let once := compressImage B Script.photo 1024 (7 # 10) in
  compressImage B once 1024 (7 # 10) =
  toDataURL B {| canvas_width := 1024; canvas_height := 501;
                 drawn := image_source once |} "image/jpeg" (7 # 10).
Proof.
  intros B once.
  apply (compressImage_twice B Script.photo 1024 (7 # 10) 1024 501);
    reflexivity.
Defined.

Lemma startsWith_app (p s : string) : startsWith (p +:+ s) p = true.
Proof.
  induction p as [|c p IH]; [by destruct s|].
  simpl. by rewrite Ascii.eqb_refl.
Qed.

(** X16: the source handed to the decoder always starts with "data:" (a
    raw base64 string gets the JPEG prefix, a data URL is taken as it is,
    so preparing the source twice changes nothing); and when the image does
    not decode, [compressImage] returns its input itself, without that
    prefix, whatever the width and quality asked for. *)
Theorem compressImage_passthrough (B : Host) (base64Str : string) (maxWidth : Z) (quality : Q) :
  startsWith (image_source base64Str) "data:" = true ∧
  image_source (image_source base64Str) = image_source base64Str ∧
  (load_image B (image_source base64Str) = None →
   compressImage B base64Str maxWidth quality = base64Str).
Proof.
  assert (Hs : startsWith (image_source base64Str) "data:" = true).
  { unfold image_source. destruct (startsWith base64Str "data:") eqn:Hd; [done|].
    apply (startsWith_app "data:" ("image/jpeg;base64," +:+ base64Str)). }
  split; [done|]. split.
  - unfold image_source at 1. by rewrite Hs.
  - intros Hload. unfold compressImage. by rewrite Hload.
Qed.

Lemma compressImage_passthrough_witness :
  compressImage (Script.host Script.key None [] []) Script.photo 1024 (7 # 10) = Script.photo.
Proof.
  apply (compressImage_passthrough (Script.host Script.key None [] []) Script.photo
           1024 (7 # 10)).
  reflexivity.
Defined.

(** ** The progression view *)

Lemma is_verdict_true v name :
  ProgressionCompare.is_verdict v name = true ↔ v = VStr name.
Proof.
  destruct v; simpl; try (split; [done | by intros [=]]).
  rewrite String.eqb_eq. split; [by intros -> | by intros [= ->]].
Qed.

Lemma verdict_cases v :
  v = VStr "IMPROVED" ∨ v = VStr "WORSENED" ∨
  (ProgressionCompare.is_verdict v "IMPROVED" = false ∧
   ProgressionCompare.is_verdict v "WORSENED" = false).
Proof.
  destruct (ProgressionCompare.is_verdict v "IMPROVED") eqn:Hi;
    [left; by apply is_verdict_true|].
  destruct (ProgressionCompare.is_verdict v "WORSENED") eqn:Hw;
    [right; left; by apply is_verdict_true|].
  by right; right.
Qed.

Lemma is_verdict_false v name :
  ProgressionCompare.is_verdict v name = false → v ≠ VStr name.
Proof. intros Hf ->. simpl in Hf. by rewrite String.eqb_refl in Hf. Qed.

(** X17: the view knows three looks only: "IMPROVED" and "WORSENED" have
    their own styling and icon, every other verdict ("STABLE", "UNCLEAR",
    "MISMATCH", or anything else, a missing verdict included) gets the
    neutral ones; and the icon and the styling always go together: two
    verdicts have the same icon exactly when they have the same styling. *)
Theorem verdict_looks (v v' : value) :
  (ProgressionCompare.getVerdictStyles v = ProgressionCompare.getVerdictStyles (VStr "STABLE") ↔
   v ≠ VStr "IMPROVED" ∧ v ≠ VStr "WORSENED") ∧
  (ProgressionCompare.getIcon v = ProgressionCompare.getIcon v' ↔
   ProgressionCompare.getVerdictStyles v = ProgressionCompare.getVerdictStyles v').
Proof.
  unfold ProgressionCompare.getVerdictStyles, ProgressionCompare.getIcon.
  destruct (verdict_cases v) as [->|[->|[Hi Hw]]];
    destruct (verdict_cases v') as [->|[->|[Hi' Hw']]];
    rewrite ?Hi, ?Hw, ?Hi', ?Hw'; simpl;
    (split; [split; [intros H | intros [H1 H2]] | split; intros H]);
    try done; try discriminate;
    split; by apply is_verdict_false.
Qed.

(** X18: [handleCompare] never changes the selection and never leaves the
    spinner on.  With the same entry selected twice it does nothing at all.
    Otherwise it ends with [loading] off; if it alerted "Comparison failed"
    (an index without an entry, or a comparison that rejected) the report is
    [null]; if it did not, the report is what [compareProgression] resolved
    to for the images of the two selected entries, called once. *)
Theorem handleCompare_settles (compare : string → string → completion value)
    (entries : list ProgressionCompare.TimelineEntry) (s : ProgressionCompare.state) :
  let out := ProgressionCompare.handleCompare compare entries s in
  ProgressionCompare.idx1 out.1 = ProgressionCompare.idx1 s ∧
  ProgressionCompare.idx2 out.1 = ProgressionCompare.idx2 s ∧
  (ProgressionCompare.idx1 s = ProgressionCompare.idx2 s → out = (s, [])) ∧
  (ProgressionCompare.idx1 s ≠ ProgressionCompare.idx2 s →
   ProgressionCompare.loading out.1 = false ∧
   (ProgressionCompare.Alerted "Comparison failed" ∈ out.2 →
    ProgressionCompare.report out.1 = VNull) ∧
   (ProgressionCompare.Alerted "Comparison failed" ∉ out.2 →
    ∃ a b,
      ProgressionCompare.image_at entries (ProgressionCompare.idx1 s) = Normal a ∧
      ProgressionCompare.image_at entries (ProgressionCompare.idx2 s) = Normal b ∧
      compare a b = Normal (ProgressionCompare.report out.1) ∧
      out.2 = [ProgressionCompare.Compared a b])).
Proof.
  intros out. unfold out, ProgressionCompare.handleCompare.
  destruct (ProgressionCompare.idx1 s =? ProgressionCompare.idx2 s)%Z eqn:Heq.
  - apply Z.eqb_eq in Heq. repeat split; try done.
  - apply Z.eqb_neq in Heq.
    destruct (ProgressionCompare.image_at entries (ProgressionCompare.idx1 s)) as [a|e1];
      [destruct (ProgressionCompare.image_at entries (ProgressionCompare.idx2 s)) as [b|e2];
       [destruct (compare a b) as [result|e3] eqn:Hcmp|]|];
      simpl;
      (split; [done|]; split; [done|]; split; [intros; congruence|];
       intros _; split; [done|]; split).
    + intros Hal. apply list_elem_of_singleton in Hal. discriminate Hal.
    + intros _. by exists a, b.
    + done.
    + intros Hno. exfalso. apply Hno. set_solver.
    + done.
    + intros Hno. exfalso. apply Hno. set_solver.
    + done.
    + intros Hno. exfalso. apply Hno. set_solver.
Qed.

Lemma handleCompare_settles_witness :
  let s := {| ProgressionCompare.idx1 := 0; ProgressionCompare.idx2 := 2;
              ProgressionCompare.report := VNull; ProgressionCompare.loading := false |} in
  let out := ProgressionCompare.handleCompare (λ _ _, Normal Cases.improved_report)
               Cases.timeline s in
  ProgressionCompare.loading out.1 = false ∧
  ProgressionCompare.report out.1 = Cases.improved_report ∧
  out.2 = [ProgressionCompare.Compared "image-a" "image-c"].
Proof.
  intros s out.
  destruct (handleCompare_settles (λ _ _, Normal Cases.improved_report) Cases.timeline s)
    as (_ & _ & _ & Hrun).
  destruct Hrun as (Hload & _ & Hok); [discriminate|].
  split; [exact Hload|]. split; reflexivity.
Defined.

(** ** Disease names of rejected images *)

(** X19: [geminiService.ts] and [part_001] never show a disease name of the
    model for an image that is not skin: every record they return with
    [isSkin === false] is named "No Skin Detected", "Analysis Error" or
    "Error", and is flagged [isHealthy: false]. *)
Theorem rejection_disease_name (v : variant) (B : Host) img tr0 r tr :
  v ≠ Part000Service →
  analyzeSkinImage v B img tr0 = (Normal r, tr) →
  prop r "isSkin" = VBool false →
  prop r "diseaseName" ∈ [VStr "No Skin Detected"; VStr "Analysis Error"; VStr "Error"] ∧
  prop r "isHealthy" = VBool false.
Proof.
  intros Hv Hrun Hskin.
  apply analyzeSkinImage_Normal in Hrun as [[->|[msg ->]]|(result & tr1 & Hnorm)].
  - split; [set_solver | done].
  - destruct v; [|done|]; split; (set_solver || done).
  - destruct v; [|done|]; simpl in Hnorm.
    + unfold Gemini.normalize in Hnorm.
      apply M_bind_Normal in Hnorm as (isSkin & tr2 & Hget & Hnorm).
      apply lift_Normal in Hget as [Hget ->]. apply get_Normal in Hget as [_ ->].
      destruct (is_false (prop result "isSkin")) eqn:Hres.
      * inversion Hnorm; subst. simpl.
        split.
        -- rewrite lookup_insert_ne by done. rewrite lookup_insert_eq. set_solver.
        -- rewrite !lookup_insert_ne by done. by rewrite lookup_insert_eq.
      * inversion Hnorm; subst. by rewrite Hskin in Hres.
    + apply lift_Normal in Hnorm as [Hnorm _].
      apply part001_normalize_form in Hnorm as (filled & _ & ->).
      destruct (is_false (prop filled "isSkin")) eqn:Hres.
      * simpl. split.
        -- rewrite !lookup_insert_ne by done. rewrite lookup_insert_eq. set_solver.
        -- rewrite !lookup_insert_ne by done. by rewrite lookup_insert_eq.
      * by rewrite Hskin in Hres.
Qed.

Lemma rejection_disease_name_witness :
  let r := Script.returned (analyzeSkinImage GeminiService
                              (Script.answering (Script.full_reply false)) Script.photo []) in
  prop r "diseaseName" ∈ [VStr "No Skin Detected"; VStr "Analysis Error"; VStr "Error"] ∧
  prop r "isHealthy" = VBool false.
Proof.
  intros r.
  apply (rejection_disease_name GeminiService (Script.answering (Script.full_reply false))
           Script.photo [] r
           (analyzeSkinImage GeminiService
              (Script.answering (Script.full_reply false)) Script.photo []).2);
    [discriminate | vm_compute; reflexivity | vm_compute; reflexivity].
Defined.
